(** * mach session middleware ([modules/middleware/session.js])

    A shallow embedding of the cookie-session middleware: the JavaScript
    string primitives it uses, the signed-cookie codec ([encodeSession],
    [decodeCookie], [_makeHash]) and the per-request promise chain of
    [Session.prototype.apply]. *)

From Stdlib Require Import ZArith String Ascii List Lia.
From stdpp Require Import base gmap strings.

Local Open Scope Z_scope.
Local Open Scope string_scope.

(** ** JavaScript string primitives *)

Module JsString.

(** [s.length]. *)
Definition len (s : string) : Z := Z.of_nat (String.length s).

(** Left-to-right scan behind [lastIndexOf]: [pos] is the index of the
    first character of [s] in the whole string, [found] the last match
    seen so far. *)
Fixpoint lastIndexOf_from (pat s : string) (pos found : Z) : Z :=
  let found' := if String.prefix pat s then pos else found in
  match s with
  | EmptyString => found'
  | String _ s' => lastIndexOf_from pat s' (pos + 1) found'
  end.

(** [s.lastIndexOf(pat)]: the greatest index at which [pat] occurs in
    [s], and [-1] when it does not occur. *)
Definition lastIndexOf (s pat : string) : Z := lastIndexOf_from pat s 0 (-1).

(** Argument clamping of [String.prototype.substring]. *)
Definition clamp (n i : Z) : Z := Z.max 0 (Z.min i n).

(** [s.substring(start, end)]: both indices are clamped to [0, length]
    and swapped when [start > end]. *)
Definition substring (s : string) (start end_ : Z) : string :=
  let a := clamp (len s) start in
  let b := clamp (len s) end_ in
  let lo := Z.min a b in
  let hi := Z.max a b in
  String.substring (Z.to_nat lo) (Z.to_nat (hi - lo)) s.

(** [s.substring(start)]: [end] defaults to [s.length]. *)
Definition substring_from (s : string) (start : Z) : string :=
  substring s start (len s).

(** Whether [pat] occurs somewhere in [s] ([s.indexOf(pat) !== -1]). *)
Fixpoint occurs (pat s : string) : bool :=
  String.prefix pat s ||
  match s with
  | EmptyString => false
  | String _ s' => occurs pat s'
  end.

(** Whether [s] is free of the character ['-'], as a hexadecimal digest is. *)
Fixpoint dash_free (s : string) : bool :=
  match s with
  | EmptyString => true
  | String c s' => negb (Ascii.eqb c "-") && dash_free s'
  end.

(** [s] without its first character. *)
Definition tail (s : string) : string :=
  match s with
  | EmptyString => EmptyString
  | String _ s' => s'
  end.

(** [a === b] on two strings. *)
Definition strict_eq (a b : string) : bool := String.eqb a b.

(** Truthiness of a string: only the empty string is falsy. *)
Definition truthy (s : string) : bool := negb (String.eqb s "").

End JsString.

(** ** JavaScript values

    The values that can sit in [request.session] or reach the cookie
    comparison.  Numbers are integers here; the middleware only tests them
    for truthiness. *)

#[warnings="-register-all"]
Inductive value : Type :=
| VUndefined
| VNull
| VBool (b : bool)
| VNum (n : Z)
| VStr (s : string)
| VObj (props : gmap string value).

(** ToBoolean: what [x && ...], [x || ...] and [if (x)] test. *)
Definition truthy (v : value) : bool :=
  match v with
  | VUndefined | VNull => false
  | VBool b => b
  | VNum n => negb (Z.eqb n 0)
  | VStr s => JsString.truthy s
  | VObj _ => true
  end.

(** [{}], a fresh object without properties. *)
Definition empty_object : value := VObj ∅.

(** Rejection reasons, as far as the middleware looks at them: the name
    and message of an [Error].  A reason that is not an [Error] is its
    string form in [err_message], under an empty [err_name]. *)
Record JsError := { err_name : string; err_message : string }.

(** [new Error(message)]. *)
Definition new_Error (message : string) : JsError :=
  {| err_name := "Error"; err_message := message |}.

(** [Error.prototype.toString], used by ['...' + error]. *)
Definition error_toString (e : JsError) : string :=
  if String.eqb (err_name e) "" then err_message e
  else if String.eqb (err_message e) "" then err_name e
  else err_name e ++ ": " ++ err_message e.

(** ** Promises

    A promise is represented by the state it settles in; [Pending] is a
    promise that never settles, so that none of its callbacks run. *)

Inductive promise (A : Type) : Type :=
| Fulfilled (a : A)
| Rejected (reason : JsError)
| Pending.
Arguments Fulfilled {A} a.
Arguments Rejected {A} reason.
Arguments Pending {A}.

Definition promise_map {A B : Type} (f : A -> B) (p : promise A) : promise B :=
  match p with
  | Fulfilled a => Fulfilled (f a)
  | Rejected e => Rejected e
  | Pending => Pending
  end.

(** The argument of [RSVP.resolve]: a plain value or a promise. *)
Inductive resolvable (A : Type) : Type :=
| Plain (v : A)
| Thenable (p : promise A).
Arguments Plain {A} v.
Arguments Thenable {A} p.

(** [RSVP.resolve(x)]: a promise is adopted, a plain value fulfils. *)
Definition RSVP_resolve {A : Type} (x : resolvable A) : promise A :=
  match x with
  | Plain v => Fulfilled v
  | Thenable p => p
  end.

(** ** Requests and cookies *)

(** [expireAfter && new Date(...)]: the number [0] or a date, given in
    milliseconds since the epoch. *)
Inductive expires_value : Type :=
| ExpiresZero
| ExpiresDate (ms : Z).

Definition expires_truthy (e : expires_value) : bool :=
  match e with
  | ExpiresZero => false
  | ExpiresDate _ => true
  end.

(** The options object handed to [utils.setCookie]. *)
Record CookieAttrs := {
  c_value : value;
  c_path : string;
  c_domain : option string;
  c_expires : expires_value;
  c_httpOnly : bool;
  c_secure : bool
}.

(** The parts of the request the middleware touches: [request.cookies],
    [request.session] and the lines written to [request.error]. *)
Record Request := {
  cookies : gmap string string;
  session : value;
  error : list string
}.

(** ** Collaborators outside [session.js]

    [../utils] ([encodeBase64], [decodeBase64], [makeHash], [setCookie]),
    the clock behind [Date.now()], the response type and whatever state the
    store and the downstream application keep ([World]) are parameters of
    the development.  The three string utilities are taken as total
    functions; [setCookie] returns the response with the cookie set on its
    headers. *)

Class Platform := {
  World : Type;
  Response : Type;
  encodeBase64 : string -> string;
  decodeBase64 : string -> string;
  makeHash : string -> string;
  setCookie : Response -> string -> CookieAttrs -> Response;
  Date_now : World -> Z
}.

Definition MAX_COOKIE_SIZE : Z := 4096.

Section Middleware.
Context {P : Platform}.

(** The [mach.session.Store] interface: [save(session)] promises a
    string for the cookie, [load(data)] promises the session. *)
Record Store := {
  save : value -> World -> promise string * World;
  load : string -> World -> promise value * World
}.

(** The downstream application, as seen through [request.call(app)]: it
    may change the request and the world, and promises a response. *)
Definition App : Type := Request -> World -> promise Response * (Request * World).

(** The fields the [Session] constructor sets on [this]. *)
Record Session := {
  _secret : option string;
  _name : string;
  _path : string;
  _domain : option string;
  _isSecure : bool;
  _expireAfter : Z;
  _isHttpOnly : bool;
  _store : Store;
  _app : App
}.

(** What the middleware does to its collaborators, in order; a call to
    the application is logged with the promise it returned.  The log is
    bookkeeping of this development, the source keeps none. *)
Inductive call : Type :=
| Call_decodeCookie (cookie : string)
| Call_load (data : string)
| Assign_session (v : value)
| Call_app (request : Request) (outcome : promise Response)
| Call_encodeSession (session : value)
| Call_save (session : value)
| Call_setCookie (name : string) (attrs : CookieAttrs)
| Write_error (line : string).

(** The calls that persist a session: saving, encoding, setting the cookie. *)
Definition persists (c : call) : bool :=
  match c with
  | Call_encodeSession _ | Call_save _ | Call_setCookie _ _ => true
  | _ => false
  end.

(** The calls of the downstream application. *)
Definition is_Call_app (c : call) : bool :=
  match c with
  | Call_app _ _ => true
  | _ => false
  end.

(** The request being served, the world around it and the call log. *)
Record state := {
  request : Request;
  world : World;
  calls : list call
}.

(** State-passing computations. *)
Definition M (A : Type) : Type := state -> A * state.

Definition ret {A : Type} (a : A) : M A := fun st => (a, st).

Definition bind {A B : Type} (m : M A) (k : A -> M B) : M B :=
  fun st => let (a, st') := m st in k a st'.

(** Sequencing of state-passing computations. *)
Notation "x <- m ;; k" := (bind m (fun x => k))
  (at level 100, m at next level, right associativity).
Notation "m ;;; k" := (bind m (fun _ => k))
  (at level 100, right associativity).

(** Append one entry to the call log. *)
Definition record (c : call) : M unit := fun st =>
  (tt, {| request := request st; world := world st; calls := calls st ++ [c] |}).

(** [promise.then(onFulfilled, onRejected)].  A callback that returns a
    plain value yields [Fulfilled], one that throws yields [Rejected]. *)
Definition then_ {A B : Type} (p : promise A)
    (onFulfilled : A -> M (promise B))
    (onRejected : JsError -> M (promise B)) : M (promise B) :=
  match p with
  | Fulfilled a => onFulfilled a
  | Rejected e => onRejected e
  | Pending => ret Pending
  end.

(** [promise.then(onFulfilled)]: a rejection passes through. *)
Definition then1 {A B : Type} (p : promise A)
    (onFulfilled : A -> M (promise B)) : M (promise B) :=
  then_ p onFulfilled (fun e => ret (Rejected e)).

(** Reading [request.session]. *)
Definition get_session : M value := fun st => (session (request st), st).

(** The request after [request.session = v]. *)
Definition with_session (v : value) (r : Request) : Request :=
  {| cookies := cookies r; session := v; error := error r |}.

(** The request after [request.error.write(line)]. *)
Definition with_error_line (line : string) (r : Request) : Request :=
  {| cookies := cookies r; session := session r; error := error r ++ [line] |}.

(** [request.session = v]. *)
Definition set_session (v : value) : M unit := fun st =>
  (tt, {| request := with_session v (request st);
          world := world st;
          calls := calls st ++ [Assign_session v] |}).

(** [request.cookies[cookieName]]; [None] is [undefined]. *)
Definition get_cookie (cookieName : string) : M (option string) := fun st =>
  (cookies (request st) !! cookieName, st).

(** [request.error.write(line)]. *)
Definition error_write (line : string) : M unit := fun st =>
  (tt, {| request := with_error_line line (request st);
          world := world st;
          calls := calls st ++ [Write_error line] |}).

(** [request.call(app)]. *)
Definition call_app (app : App) : M (promise Response) := fun st =>
  let '(p, (req, w)) := app (request st) (world st) in
  (p, {| request := req; world := w; calls := calls st ++ [Call_app (request st) p] |}).

(** [store.save(session)] and [store.load(data)]. *)
Definition store_save (store : Store) (s : value) : M (promise string) := fun st =>
  let (p, w) := save store s (world st) in
  (p, {| request := request st; world := w; calls := calls st ++ [Call_save s] |}).

Definition store_load (store : Store) (data : string) : M (promise value) := fun st =>
  let (p, w) := load store data (world st) in
  (p, {| request := request st; world := w; calls := calls st ++ [Call_load data] |}).

(** [Date.now()]. *)
Definition now : M Z := fun st => (Date_now (world st), st).

(** ** The signed cookie *)

(** [function _makeHash(data, secret)]: [secret ? data + secret : data];
    an unset secret and the empty string are both falsy. *)
Definition _makeHash (data : string) (secret : option string) : string :=
  makeHash (match secret with
            | Some s => if JsString.truthy s then data ++ s else data
            | None => data
            end).

(** The error thrown for an oversized cookie. *)
Definition cookie_too_large : JsError :=
  new_Error "Cookie data size exceeds 4kb; content dropped".

(** [Session.prototype.encodeSession]. *)
Definition encodeSession (self : Session) (s : value) : M (promise string) :=
  let secret := _secret self in
  record (Call_encodeSession s) ;;;
  p <- store_save (_store self) s ;;
  then1 p (fun data =>
    let cookie := encodeBase64 (data ++ "--" ++ _makeHash data secret) in
    if JsString.len cookie >? MAX_COOKIE_SIZE
    then ret (Rejected cookie_too_large)
    else ret (Fulfilled cookie)).

(** [Session.prototype.decodeCookie]: [null] or the promise of
    [store.load]. *)
Definition decodeCookie (self : Session) (cookie : string) : M (resolvable value) :=
  record (Call_decodeCookie cookie) ;;;
  let value := decodeBase64 cookie in
  let index := JsString.lastIndexOf value "--" in
  let data := JsString.substring value 0 index in
  let hash := JsString.substring_from value (index + 2) in
  if JsString.strict_eq hash (_makeHash data (_secret self))
  then p <- store_load (_store self) data ;; ret (Thenable p)
  else ret (Plain VNull).

(** ** [Session.prototype.apply] *)

(** [newCookie === cookie], where [cookie] is [undefined] or a string. *)
Definition same_cookie (newCookie : value) (cookie : option string) : bool :=
  match newCookie, cookie with
  | VUndefined, None => true
  | VStr a, Some b => JsString.strict_eq a b
  | _, _ => false
  end.

(** [RSVP.resolve(cookie && self.decodeCookie(cookie))]. *)
Definition resolve_decoded (self : Session) (cookie : option string) : M (promise value) :=
  r <- match cookie with
       | Some c => if JsString.truthy c then decodeCookie self c
                   else ret (Plain (VStr c))
       | None => ret (Plain VUndefined)
       end ;;
  ret (RSVP_resolve r).

(** [RSVP.resolve(request.session && self.encodeSession(request.session))]. *)
Definition resolve_encoded (self : Session) : M (promise value) :=
  s <- get_session ;;
  r <- (if truthy s
        then p <- encodeSession self s ;; ret (Thenable (promise_map VStr p))
        else ret (Plain s)) ;;
  ret (RSVP_resolve r).

(** [expireAfter && new Date(Date.now() + (expireAfter * 1000))]. *)
Definition compute_expires (expireAfter : Z) : M expires_value :=
  if Z.eqb expireAfter 0 then ret ExpiresZero
  else t <- now ;; ret (ExpiresDate (t + expireAfter * 1000)).

(** The callback on the encoded cookie. *)
Definition on_newCookie (self : Session) (cookie : option string)
    (response : Response) (newCookie : value) : M (promise Response) :=
  expires <- compute_expires (_expireAfter self) ;;
  if same_cookie newCookie cookie && negb (expires_truthy expires)
  then ret (Fulfilled response)
  else
    let attrs := {| c_value := newCookie;
                    c_path := _path self;
                    c_domain := _domain self;
                    c_expires := expires;
                    c_httpOnly := _isHttpOnly self;
                    c_secure := _isSecure self |} in
    record (Call_setCookie (_name self) attrs) ;;;
    ret (Fulfilled (setCookie response (_name self) attrs)).

(** The callback on an encoding failure. *)
Definition on_encode_error (response : Response) (e : JsError) : M (promise Response) :=
  error_write ("Error encoding session data: " ++ error_toString e) ;;;
  ret (Fulfilled response).

(** The callback on the application's response. *)
Definition on_response (self : Session) (cookie : option string)
    (response : Response) : M (promise Response) :=
  p <- resolve_encoded self ;;
  then_ p (on_newCookie self cookie response) (on_encode_error response).

(** The callback on the decoded session. *)
Definition on_session (self : Session) (cookie : option string)
    (s : value) : M (promise Response) :=
  set_session (if truthy s then s else empty_object) ;;;
  p <- call_app (_app self) ;;
  then1 p (on_response self cookie).

(** The callback on a decoding failure. *)
Definition on_decode_error (self : Session) (e : JsError) : M (promise Response) :=
  error_write ("Error decoding session data: " ++ error_toString e) ;;;
  call_app (_app self).

Definition apply (self : Session) : M (promise Response) :=
  s <- get_session ;;
  if truthy s then call_app (_app self)
  else
    cookie <- get_cookie (_name self) ;;
    p <- resolve_decoded self cookie ;;
    then_ p (on_session self cookie) (on_decode_error self).

(** The failure-branch behaviour on one request: a diagnostic is written,
    the application is called, and no session is assigned. *)
Definition recovers_by_logging (self : Session) (st : state) : Prop :=
  let log := calls (snd (apply self st)) in
  (exists line, Write_error line ∈ log) /\
  (exists r out, Call_app r out ∈ log) /\
  (forall v, Assign_session v ∉ log).

End Middleware.

(** ** Store submodules *)

(** [var submodules = {...}], in property order. *)
Definition submodules : list (string * string) :=
  [ ("CookieStore", "./session/cookie-store");
    ("MemoryStore", "./session/memory-store");
    ("RedisStore", "./session/redis-store") ].

(** [Object.keys(o)]. *)
Definition Object_keys {A : Type} (o : list (string * A)) : list string :=
  map fst o.

(** [o[name]]. *)
Fixpoint property {A : Type} (o : list (string * A)) (name : string) : option A :=
  match o with
  | [] => None
  | (k, v) :: rest => if String.eqb k name then Some v else property rest name
  end.

(** The getters defined on [module.exports] by the closing [forEach]: each
    name with the module path its getter requires when read. *)
Definition exported_getters : list (string * option string) :=
  map (fun name => (name, property submodules name)) (Object_keys submodules).

(** Reading [module.exports[name]] through such a getter: the path that is
    required, if a getter of that name was defined. *)
Definition exported_store (name : string) : option string :=
  match property exported_getters name with
  | Some path => path
  | None => None
  end.

(** ** The constructor *)

Section Construction.
Context {P : Platform}.

(** The recognised properties of the [options] object, each possibly
    missing, at the types the header comment documents. *)
Record Options := {
  o_secret : option string;
  o_name : option string;
  o_path : option string;
  o_domain : option string;
  o_secure : option bool;
  o_expireAfter : option Z;
  o_httpOnly : option bool;
  o_store : option Store
}.

(** [{}]. *)
Definition no_options : Options :=
  {| o_secret := None; o_name := None; o_path := None; o_domain := None;
     o_secure := None; o_expireAfter := None; o_httpOnly := None;
     o_store := None |}.

(** What a caller may pass as [options]: nothing, a string, an object. *)
Inductive options_arg : Type :=
| OptionsUndefined
| OptionsString (s : string)
| OptionsObject (o : Options).

(** [options = options || {}], then
    [if (typeof options === 'string') options = { secret: options }].  The
    empty string is falsy and is replaced by [{}] in the first step. *)
Definition normalize_options (a : options_arg) : Options :=
  match a with
  | OptionsUndefined => no_options
  | OptionsString s =>
      if JsString.truthy s
      then {| o_secret := Some s; o_name := None; o_path := None; o_domain := None;
              o_secure := None; o_expireAfter := None; o_httpOnly := None;
              o_store := None |}
      else no_options
  | OptionsObject o => o
  end.

(** [x || fallback] on an optional string. *)
Definition string_or (x : option string) (fallback : string) : string :=
  match x with
  | Some s => if JsString.truthy s then s else fallback
  | None => fallback
  end.

(** [!secret]. *)
Definition secret_missing (secret : option string) : bool :=
  match secret with
  | Some s => negb (JsString.truthy s)
  | None => true
  end.

(** The text passed to [console.warn]: five lines joined by ['\n']. *)
Definition secret_warning : string :=
  String.concat (String "010"%char "")
    [ "WARNING: There was no " ++ String "034"%char "secret"
        ++ String "034"%char " option provided to mach.session! This poses";
      "a security vulnerability because session data will be stored on clients without";
      "any server-side verification that it has not been tampered with. It is strongly";
      "recommended that you set a secret to prevent exploits that may be attempted using";
      "carefully crafted cookies." ].

(** [function Session(app, options)]: the object it initialises and the
    lines it hands to [console.warn].  [CookieStore] stands for
    [new CookieStore(options)], whose file is another module. *)
Definition new_Session (CookieStore : Options -> Store) (app : App)
    (a : options_arg) : Session * list string :=
  let options := normalize_options a in
  let secret := o_secret options in
  let warnings := if secret_missing secret then [secret_warning] else [] in
  ({| _secret := secret;
      _name := string_or (o_name options) "_session";
      _path := string_or (o_path options) "/";
      _domain := o_domain options;
      _isSecure := match o_secure options with Some b => b || false | None => false end;
      _expireAfter := match o_expireAfter options with
                      | Some n => if Z.eqb n 0 then 0 else n
                      | None => 0
                      end;
      _isHttpOnly := match o_httpOnly options with
                     | Some b => b || false
                     | None => true
                     end;
      _store := match o_store options with
                | Some store => store
                | None => CookieStore options
                end;
      _app := app |},
   warnings).

(** ** Reading the call log *)

Definition is_Call_setCookie (c : call) : bool :=
  match c with
  | Call_setCookie _ _ => true
  | _ => false
  end.

Definition is_Write_error (c : call) : bool :=
  match c with
  | Write_error _ => true
  | _ => false
  end.

(** The calls made while decoding: [decodeCookie] and [store.load]. *)
Definition decodes (c : call) : bool :=
  match c with
  | Call_decodeCookie _ | Call_load _ => true
  | _ => false
  end.


(** How many entries of a log satisfy [f]. *)
Definition count_calls (f : call -> bool) (l : list call) : nat :=
  List.length (List.filter f l).

(** A [setCookie] call that carries the configuration of [self]: its name,
    path, domain and flags, an expiry exactly when [expireAfter] is not
    zero, and a string value of at most [MAX_COOKIE_SIZE] characters. *)
Definition cookie_call_ok (self : Session) (c : call) : Prop :=
  match c with
  | Call_setCookie name attrs =>
      name = _name self /\
      c_path attrs = _path self /\
      c_domain attrs = _domain self /\
      c_httpOnly attrs = _isHttpOnly self /\
      c_secure attrs = _isSecure self /\
      (c_expires attrs = ExpiresZero <-> _expireAfter self = 0) /\
      (forall v, c_value attrs = VStr v -> JsString.len v <= MAX_COOKIE_SIZE)
  | _ => True
  end.

(** ** The round trip of a token *)



End Construction.

(** ** A small concrete platform

    An instance on which the statements below can be evaluated: a
    prefixing codec, a digest that replaces dashes, a clock held in the
    world and responses that list the cookies set on them. *)

Module Toy.

Definition toy_encodeBase64 (s : string) : string := "b64:" ++ s.

Definition toy_decodeBase64 (s : string) : string := JsString.substring_from s 4.

Fixpoint toy_digest (s : string) : string :=
  match s with
  | EmptyString => EmptyString
  | String c s' => String (if Ascii.eqb c "-" then "_"%char else c) (toy_digest s')
  end.

Definition toy_makeHash (s : string) : string := "#" ++ toy_digest s.

Definition platform : Platform :=
  {| World := Z;
     Response := list (string * CookieAttrs);
     encodeBase64 := toy_encodeBase64;
     decodeBase64 := toy_decodeBase64;
     makeHash := toy_makeHash;
     setCookie := fun r name attrs => (r ++ [(name, attrs)])%list;
     Date_now := fun w => w |}.

(** A store that keeps a string session as its own token. *)
Definition text_store : @Store platform :=
  {| save := fun s w => (Fulfilled (match s with VStr t => t | _ => "{}" end), w);
     load := fun data w =>
       (Fulfilled (if String.eqb data "{}" then empty_object else VStr data), w) |}.

(** A store whose backend is unreachable. *)
Definition broken_store : @Store platform :=
  {| save := fun _ w => (Rejected (new_Error "store down"), w);
     load := fun _ w => (Rejected (new_Error "store down"), w) |}.

(** A response on which no cookie was set. *)
Definition no_cookies : @Response platform := [].

(** Applications: one that answers without touching the session, one
    that fails. *)
Definition ok_app : @App platform := fun req w => (Fulfilled no_cookies, (req, w)).

Definition failing_app : @App platform :=
  fun req w => (Rejected (new_Error "boom"), (req, w)).

(** An application that stores five thousand characters in the session. *)
Definition long_text : string := string_of_list_ascii (repeat "a"%char 5000).

Definition bloating_app : @App platform :=
  fun req w => (Fulfilled no_cookies, (with_session (VStr long_text) req, w)).

Definition mkSession (secret : option string) (expireAfter : Z)
    (store : @Store platform) (app : @App platform) : @Session platform :=
  {| _secret := secret; _name := "_session"; _path := "/"; _domain := None;
     _isSecure := false; _expireAfter := expireAfter; _isHttpOnly := true;
     _store := store; _app := app |}.

Definition mkRequest (cookie : option string) (s : value) : Request :=
  {| cookies := match cookie with
                | Some c => {[ "_session" := c ]}
                | None => ∅
                end;
     session := s;
     error := [] |}.

Definition mkState (cookie : option string) (s : value) (clock : Z) : @state platform :=
  @Build_state platform (mkRequest cookie s) clock [].

(** A state given by its three parts. *)
Definition state_of (r : Request) (clock : Z) (log : list (@call platform)) : @state platform :=
  @Build_state platform r clock log.

(** Configurations: a working one, one with an expiry, one whose store is
    unreachable, one whose application fails and one whose application
    overfills the session. *)
Definition keyed : @Session platform := mkSession (Some "k") 0 text_store ok_app.
Definition expiring : @Session platform := mkSession (Some "k") 60 text_store ok_app.
Definition unreachable : @Session platform := mkSession (Some "k") 0 broken_store ok_app.
Definition failing : @Session platform := mkSession (Some "k") 0 text_store failing_app.
Definition bloating : @Session platform := mkSession (Some "k") 0 text_store bloating_app.

(** A store whose [load] never settles, one that has forgotten every
    session, and an application that deletes the session. *)
Definition stalled_store : @Store platform :=
  {| save := fun _ w => (Pending, w);
     load := fun _ w => (Pending, w) |}.

Definition forgetful_store : @Store platform :=
  {| save := fun _ w => (Fulfilled "{}", w);
     load := fun _ w => (Fulfilled VNull, w) |}.

Definition clearing_app : @App platform :=
  fun req w => (Fulfilled no_cookies, (with_session VUndefined req, w)).

Definition unkeyed : @Session platform := mkSession None 0 text_store ok_app.
Definition stalled : @Session platform := mkSession (Some "k") 0 stalled_store ok_app.
Definition forgetful : @Session platform := mkSession (Some "k") 0 forgetful_store ok_app.
Definition clearing : @Session platform := mkSession (Some "k") 0 text_store clearing_app.

(** [new CookieStore(options)] on this platform. *)
Definition toy_CookieStore : @Options platform -> @Store platform := fun _ => text_store.

End Toy.

(** ** Two platforms outside the round trip's conditions

    One whose codec transcodes, replacing what it cannot encode, and one
    whose digest may begin with ['-']. *)

Module Adverse.











End Adverse.

(** * Properties *)

(** ** Strings *)

Section StringFacts.
Import JsString.

Lemma append_String (c : ascii) (a b : string) : String c a ++ b = String c (a ++ b).
Proof. reflexivity. Qed.

Lemma append_empty (b : string) : "" ++ b = b.
Proof. reflexivity. Qed.

Lemma prefix_String (a b : ascii) (p s : string) :
  String.prefix (String a p) (String b s) =
  if ascii_dec a b then String.prefix p s else false.
Proof. reflexivity. Qed.

Lemma prefix_app (p b : string) : String.prefix p (p ++ b) = true.
Proof.
  induction p as [|c p IH].
  - rewrite append_empty. now destruct b.
  - rewrite append_String, prefix_String. destruct (ascii_dec c c); [exact IH | congruence].
Qed.

Lemma prefix_inv (p s : string) :
  String.prefix p s = true -> exists b, s = p ++ b.
Proof.
  revert s; induction p as [|c p IH]; intros s H.
  - now exists s.
  - destruct s as [|c' s]; [discriminate|]. rewrite prefix_String in H.
    destruct (ascii_dec c c') as [->|]; [|discriminate].
    destruct (IH _ H) as [b ->]. now exists b.
Qed.

Lemma occurs_prefix (pat s : string) :
  String.prefix pat s = true -> occurs pat s = true.
Proof. intros H. destruct s; cbn [occurs]; now rewrite H. Qed.

Lemma occurs_spec (pat s : string) :
  occurs pat s = true <-> exists a b, s = a ++ pat ++ b.
Proof.
  split.
  - induction s as [|c s IH]; cbn [occurs]; intros H.
    + rewrite orb_false_r in H. apply prefix_inv in H as [b ->]. now exists "", b.
    + apply orb_true_iff in H as [H|H].
      * apply prefix_inv in H as [b ->]. now exists "", b.
      * destruct (IH H) as (a & b & ->). now exists (String c a), b.
  - intros (a & b & ->). induction a as [|c a IH].
    + rewrite append_empty. apply occurs_prefix, prefix_app.
    + rewrite append_String. cbn [occurs]. rewrite IH. apply orb_true_r.
Qed.

Lemma lastIndexOf_from_absent (pat s : string) (pos found : Z) :
  occurs pat s = false -> lastIndexOf_from pat s pos found = found.
Proof.
  revert pos; induction s as [|c s IH]; cbn [occurs lastIndexOf_from]; intros pos H.
  - rewrite orb_false_r in H. now rewrite H.
  - apply orb_false_iff in H as [H1 H2]. rewrite H1. now apply IH.
Qed.

Lemma lastIndexOf_from_here (pat s : string) (pos f1 f2 : Z) :
  String.prefix pat s = true ->
  lastIndexOf_from pat s pos f1 = lastIndexOf_from pat s pos f2.
Proof. intros H. destruct s; cbn [lastIndexOf_from]; now rewrite H. Qed.

Lemma len_String (c : ascii) (s : string) : len (String c s) = 1 + len s.
Proof. unfold len. simpl String.length. lia. Qed.

Lemma len_app (a b : string) : len (a ++ b) = len a + len b.
Proof.
  induction a as [|c a IH]; [reflexivity|].
  rewrite append_String, !len_String. lia.
Qed.

Lemma len_nonneg (s : string) : 0 <= len s.
Proof. unfold len. lia. Qed.

Lemma lastIndexOf_from_skip (pat a s : string) (pos found : Z) :
  String.prefix pat s = true ->
  lastIndexOf_from pat (a ++ s) pos found = lastIndexOf_from pat s (pos + len a) found.
Proof.
  intros H. revert pos found; induction a as [|c a IH]; intros pos found.
  - rewrite append_empty. now replace (pos + len "") with pos by (unfold len; simpl; lia).
  - rewrite append_String. cbn [lastIndexOf_from]. rewrite IH, len_String.
    replace (pos + 1 + len a) with (pos + (1 + len a)) by lia.
    now apply lastIndexOf_from_here.
Qed.

Lemma dash_free_no_delimiter (h : string) (pos found : Z) :
  dash_free h = true -> lastIndexOf_from "--" h pos found = found.
Proof.
  revert pos; induction h as [|c h IH]; intros pos H; [reflexivity|].
  simpl in H. apply andb_true_iff in H as [Hc Hh].
  cbn [lastIndexOf_from].
  replace (String.prefix "--" (String c h)) with false.
  - now apply IH.
  - rewrite prefix_String. destruct (ascii_dec "-" c) as [<-|]; [discriminate Hc | reflexivity].
Qed.

(** The delimiter that [encodeSession] writes is the last one. *)
Lemma lastIndexOf_delimited (d h : string) :
  dash_free h = true -> lastIndexOf (d ++ "--" ++ h) "--" = len d.
Proof.
  intros H. unfold lastIndexOf.
  rewrite lastIndexOf_from_skip by apply prefix_app.
  pose proof (prefix_app "--" h) as E.
  change ("--" ++ h) with (String "-" (String "-" h)) in *.
  cbn [lastIndexOf_from]. rewrite E.
  assert (String.prefix "--" (String "-" h) = false) as ->.
  { rewrite prefix_String. destruct (ascii_dec "-" "-"); [|reflexivity].
    destruct h as [|c h]; [reflexivity|]. rewrite prefix_String.
    cbn [dash_free] in H. apply andb_true_iff in H as [Hc _].
    destruct (ascii_dec "-" c) as [<-|]; [discriminate Hc | reflexivity]. }
  rewrite dash_free_no_delimiter by assumption. lia.
Qed.

Lemma append_assoc (a b c : string) : (a ++ b) ++ c = a ++ b ++ c.
Proof.
  induction a as [|x a IH]; [reflexivity|].
  rewrite !append_String. now rewrite IH.
Qed.

Lemma String_substring_all (s : string) :
  String.substring 0 (String.length s) s = s.
Proof. induction s as [|c s IH]; [reflexivity|]. simpl. now rewrite IH. Qed.

Lemma String_substring_prefix (a b : string) :
  String.substring 0 (String.length a) (a ++ b) = a.
Proof.
  induction a as [|c a IH].
  - rewrite append_empty. now destruct b.
  - rewrite append_String. simpl. now rewrite IH.
Qed.

Lemma String_substring_suffix (a b : string) :
  String.substring (String.length a) (String.length b) (a ++ b) = b.
Proof.
  induction a as [|c a IH].
  - rewrite append_empty. apply String_substring_all.
  - rewrite append_String. simpl. exact IH.
Qed.

Lemma String_length_app (a b : string) :
  String.length (a ++ b) = (String.length a + String.length b)%nat.
Proof.
  induction a as [|c a IH]; [reflexivity|].
  rewrite append_String. simpl. now rewrite IH.
Qed.

(** [(a + b).substring(0, a.length)] is [a]. *)
Lemma substring_prefix (a b : string) : substring (a ++ b) 0 (len a) = a.
Proof.
  unfold substring, clamp. rewrite len_app.
  pose proof (len_nonneg a). pose proof (len_nonneg b).
  replace (Z.min (Z.max 0 (Z.min 0 (len a + len b)))
                 (Z.max 0 (Z.min (len a) (len a + len b)))) with 0 by lia.
  replace (Z.max (Z.max 0 (Z.min 0 (len a + len b)))
                 (Z.max 0 (Z.min (len a) (len a + len b))) - 0) with (len a) by lia.
  unfold len. rewrite Nat2Z.id. apply String_substring_prefix.
Qed.

(** [(a + b).substring(a.length)] is [b]. *)
Lemma substring_from_suffix (a b : string) : substring_from (a ++ b) (len a) = b.
Proof.
  unfold substring_from, substring, clamp. rewrite len_app.
  pose proof (len_nonneg a). pose proof (len_nonneg b).
  replace (Z.min (Z.max 0 (Z.min (len a) (len a + len b)))
                 (Z.max 0 (Z.min (len a + len b) (len a + len b)))) with (len a) by lia.
  replace (Z.max (Z.max 0 (Z.min (len a) (len a + len b)))
                 (Z.max 0 (Z.min (len a + len b) (len a + len b))) - len a)
    with (len b) by lia.
  unfold len. rewrite !Nat2Z.id. apply String_substring_suffix.
Qed.

(** [s.substring(0, -1)] is the empty string. *)
Lemma substring_to_minus_one (s : string) : substring s 0 (-1) = "".
Proof.
  unfold substring, clamp. pose proof (len_nonneg s).
  replace (Z.min (Z.max 0 (Z.min 0 (len s))) (Z.max 0 (Z.min (-1) (len s)))) with 0 by lia.
  replace (Z.max (Z.max 0 (Z.min 0 (len s))) (Z.max 0 (Z.min (-1) (len s))) - 0) with 0 by lia.
  now destruct s.
Qed.

(** [s.substring(1)] drops the first character. *)
Lemma substring_from_one (s : string) : substring_from s 1 = tail s.
Proof.
  destruct s as [|c s]; [reflexivity|].
  change (String c s) with (String c "" ++ s).
  change 1 with (len (String c "")) at 1.
  now rewrite substring_from_suffix.
Qed.

(** [lastIndexOf] is the greatest index at which the pattern occurs. *)
Lemma lastIndexOf_from_found (pat s : string) (pos found : Z) :
  occurs pat s = true ->
  exists a b,
    s = a ++ b /\ String.prefix pat b = true /\
    lastIndexOf_from pat s pos found = pos + len a /\
    forall a' b', s = a' ++ b' -> String.prefix pat b' = true -> len a' <= len a.
Proof.
  revert pos found; induction s as [|c s IH]; intros pos found H.
  - cbn [occurs] in H. rewrite orb_false_r in H.
    exists "", "". cbn [lastIndexOf_from]. rewrite H.
    repeat split; [unfold len; simpl; lia|].
    intros [|x a'] b' E _; [reflexivity | discriminate E].
  - cbn [lastIndexOf_from]. destruct (occurs pat s) eqn:Hs.
    + destruct (IH (pos + 1) (if String.prefix pat (String c s) then pos else found) eq_refl)
        as (a & b & -> & Hb & Hr & Hmax).
      exists (String c a), b. rewrite Hr, len_String.
      repeat split; [assumption | lia |].
      intros [|x a'] b' E Hp.
      * pose proof (len_nonneg a). change (len "") with 0. lia.
      * rewrite append_String in E. injection E as _ E.
        rewrite !len_String. specialize (Hmax _ _ E Hp). lia.
    + cbn [occurs] in H. rewrite Hs, orb_false_r in H. rewrite H.
      rewrite lastIndexOf_from_absent by assumption.
      exists "", (String c s). repeat split; [assumption | change (len "") with 0; lia |].
      intros [|x a'] b' E Hp; [reflexivity|].
      rewrite append_String in E. injection E as _ E.
      assert (occurs pat s = true) as Hc; [|congruence].
      apply occurs_spec. apply prefix_inv in Hp as [t ->]. now exists a', t.
Qed.

Lemma lastIndexOf_is_last (s pat : string) :
  occurs pat s = true ->
  exists a b,
    s = a ++ b /\ String.prefix pat b = true /\ lastIndexOf s pat = len a /\
    forall a' b', s = a' ++ b' -> String.prefix pat b' = true -> len a' <= len a.
Proof.
  intros H. destruct (lastIndexOf_from_found pat s 0 (-1) H) as (a & b & E & Hb & Hr & Hmax).
  exists a, b. unfold lastIndexOf. rewrite Hr. repeat split; assumption.
Qed.

(** A string in which the pattern occurs is its part before the last
    occurrence, the pattern, and its part after it. *)
Lemma split_at_last_delimiter (v : string) :
  occurs "--" v = true ->
  v = substring v 0 (lastIndexOf v "--") ++ "--"
      ++ substring_from v (lastIndexOf v "--" + 2).
Proof.
  intros H.
  destruct (lastIndexOf_is_last v "--" H) as (a & b & -> & Hb & Hi & _).
  apply prefix_inv in Hb as [t ->]. rewrite Hi.
  rewrite substring_prefix.
  rewrite <- (append_assoc a "--" t) at 2.
  replace (len a + 2) with (len (a ++ "--")) by (rewrite len_app; reflexivity).
  now rewrite substring_from_suffix.
Qed.

(** Splitting [d ++ "--" ++ h] at the last delimiter gives back [d] and
    [h] when [h] holds no ['-']. *)
Lemma delimited_split (d h : string) :
  dash_free h = true ->
  substring (d ++ "--" ++ h) 0 (lastIndexOf (d ++ "--" ++ h) "--") = d /\
  substring_from (d ++ "--" ++ h) (lastIndexOf (d ++ "--" ++ h) "--" + 2) = h.
Proof.
  intros H. rewrite lastIndexOf_delimited by assumption. split.
  - apply substring_prefix.
  - rewrite <- append_assoc.
    replace (len d + 2) with (len (d ++ "--")) by (rewrite len_app; reflexivity).
    apply substring_from_suffix.
Qed.

Example lastIndexOf_last_delimiter : lastIndexOf "a--b--c" "--" = 4.
Proof. reflexivity. Qed.

Example lastIndexOf_missing : lastIndexOf "abc" "--" = -1.
Proof. reflexivity. Qed.

Example lastIndexOf_empty_pattern : lastIndexOf "abc" "" = 3.
Proof. reflexivity. Qed.

Example substring_swaps_and_clamps : substring "abcdef" 4 1 = "bcd" /\ substring "abc" (-5) 9 = "abc".
Proof. split; reflexivity. Qed.

End StringFacts.

(** ** The signed cookie *)

Section Codec.
Context {P : Platform}.
Import JsString.

(** The secret that enters the hash: a falsy secret contributes nothing. *)
Lemma _makeHash_keyed (data k : string) :
  k <> "" -> _makeHash data (Some k) = makeHash (data ++ k).
Proof.
  intros H. unfold _makeHash, JsString.truthy.
  destruct (String.eqb_spec k ""); [contradiction | reflexivity].
Qed.

Lemma _makeHash_unkeyed (data : string) (secret : option string) :
  secret = None \/ secret = Some "" -> _makeHash data secret = makeHash data.
Proof. now intros [-> | ->]. Qed.

(** [decodeCookie], one step at a time. *)
Lemma decodeCookie_unfold (self : Session) (cookie : string) (st : state) :
  decodeCookie self cookie st =
  let value := decodeBase64 cookie in
  let index := lastIndexOf value "--" in
  let data := substring value 0 index in
  let hash := substring_from value (index + 2) in
  if String.eqb hash (_makeHash data (_secret self))
  then (Thenable (fst (load (_store self) data (world st))),
        {| request := request st;
           world := snd (load (_store self) data (world st));
           calls := calls st ++ [Call_decodeCookie cookie; Call_load data] |})
  else (Plain VNull,
        {| request := request st;
           world := world st;
           calls := calls st ++ [Call_decodeCookie cookie] |}).
Proof.
  unfold decodeCookie, bind, record, ret, store_load, strict_eq. cbn zeta.
  destruct (String.eqb _ _); [|reflexivity].
  cbn [request world calls]. destruct (load _ _ _) as [p w].
  now rewrite <- app_assoc.
Qed.

(** [encodeSession], one step at a time. *)
Lemma encodeSession_unfold (self : Session) (s : value) (st : state) :
  encodeSession self s st =
  let (p, w) := save (_store self) s (world st) in
  let st' := {| request := request st; world := w;
                calls := calls st ++ [Call_encodeSession s; Call_save s] |} in
  match p with
  | Fulfilled data =>
      let cookie := encodeBase64 (data ++ "--" ++ _makeHash data (_secret self)) in
      (if len cookie >? MAX_COOKIE_SIZE then Rejected cookie_too_large
       else Fulfilled cookie, st')
  | Rejected e => (Rejected e, st')
  | Pending => (Pending, st')
  end.
Proof.
  unfold encodeSession, bind, record, ret, store_save, then1, then_. cbn zeta.
  cbn [request world calls]. destruct (save _ _ _) as [p w].
  rewrite <- app_assoc. cbn [app].
  destruct p as [data| |]; try reflexivity.
  now destruct (len _ >? _).
Qed.

(** C2: once the store has produced the token [d], [encodeSession]
    yields [encodeBase64 (d ++ "--" ++ sig)], where [sig] hashes [d ++ s]
    for a non-empty secret [s] and [d] alone for an empty or unset one,
    and it is rejected, with the size error, exactly when that encoded
    cookie is longer than 4096. *)
Theorem encodeSession_signs_and_bounds
    (self : Session) (s : value) (st : state) (d : string) (w : World) :
  save (_store self) s (world st) = (Fulfilled d, w) ->
  let sig := match _secret self with
             | Some k => if String.eqb k "" then makeHash d else makeHash (d ++ k)
             | None => makeHash d
             end in
  let token := encodeBase64 (d ++ "--" ++ sig) in
  (len token <= 4096 -> fst (encodeSession self s st) = Fulfilled token) /\
  (4096 < len token -> fst (encodeSession self s st) = Rejected cookie_too_large) /\
  ((exists e, fst (encodeSession self s st) = Rejected e) <-> 4096 < len token).
Proof.
  intros Hsave sig token.
  assert (Hsig : _makeHash d (_secret self) = sig).
  { unfold _makeHash, sig, JsString.truthy.
    destruct (_secret self) as [k|]; [|reflexivity]. now destruct (String.eqb k ""). }
  rewrite encodeSession_unfold, Hsave. cbn zeta. rewrite Hsig. fold token.
  unfold MAX_COOKIE_SIZE. cbn [fst].
  destruct (Z.gtb_spec (len token) 4096) as [Hgt|Hle].
  - repeat split; try lia; eauto.
  - repeat split; try lia. intros [e He]. discriminate He.
Qed.


(** C10: when the decoded cookie holds no ["--"], [lastIndexOf] gives
    [-1], the payload is the empty string and the candidate signature is
    the decoded value without its first character; [decodeCookie] then
    returns [store.load("")] when that candidate is the hash of the empty
    payload and [null] otherwise. *)
Theorem decodeCookie_without_delimiter
    (self : Session) (cookie : string) (st : state) :
  occurs "--" (decodeBase64 cookie) = false ->
  let v := decodeBase64 cookie in
  lastIndexOf v "--" = -1 /\
  substring v 0 (lastIndexOf v "--") = "" /\
  substring_from v (lastIndexOf v "--" + 2) = tail v /\
  fst (decodeCookie self cookie st) =
    if String.eqb (tail v) (_makeHash "" (_secret self))
    then Thenable (fst (load (_store self) "" (world st)))
    else Plain VNull.
Proof.
  intros Hno v.
  assert (Hi : lastIndexOf v "--" = -1)
    by (unfold lastIndexOf; now apply lastIndexOf_from_absent).
  assert (Hd : substring v 0 (lastIndexOf v "--") = "")
    by (rewrite Hi; apply substring_to_minus_one).
  assert (Hs : substring_from v (lastIndexOf v "--" + 2) = tail v)
    by (rewrite Hi; apply substring_from_one).
  repeat split; try assumption.
  rewrite decodeCookie_unfold. cbn zeta. fold v. rewrite Hs, Hd.
  now destruct (String.eqb _ _).
Qed.

(** A correctly signed cookie is decoded to its payload, which goes to
    [store.load]. *)
Lemma decodeCookie_signed (self : Session) (d : string) (st : state) :
  (forall x, decodeBase64 (encodeBase64 x) = x) ->
  (forall x, dash_free (makeHash x) = true) ->
  decodeCookie self (encodeBase64 (d ++ "--" ++ _makeHash d (_secret self))) st =
  (Thenable (fst (load (_store self) d (world st))),
   {| request := request st;
      world := snd (load (_store self) d (world st));
      calls := calls st ++
               [Call_decodeCookie (encodeBase64 (d ++ "--" ++ _makeHash d (_secret self)));
                Call_load d] |}).
Proof.
  intros Hcodec Hdigest. rewrite decodeCookie_unfold. cbn zeta. rewrite Hcodec.
  destruct (delimited_split d (_makeHash d (_secret self)) (Hdigest _)) as [-> ->].
  now rewrite String.eqb_refl.
Qed.

(** X1: whatever the session and the store, a cookie that [encodeSession]
    fulfils with is at most [MAX_COOKIE_SIZE] long and is the encoding of
    the token the store returned, followed by ["--"] and that token's
    signature. *)
Theorem encodeSession_cookie_bounded
    (self : Session) (s : value) (st : state) (cookie : string) :
  fst (encodeSession self s st) = Fulfilled cookie ->
  len cookie <= MAX_COOKIE_SIZE /\
  exists d, fst (save (_store self) s (world st)) = Fulfilled d /\
            cookie = encodeBase64 (d ++ "--" ++ _makeHash d (_secret self)).
Proof.
  rewrite encodeSession_unfold. destruct (save _ _ _) as [[d|e|] w]; cbn zeta; cbn [fst];
    try discriminate.
  destruct (Z.gtb_spec (len (encodeBase64 (d ++ "--" ++ _makeHash d (_secret self))))
              MAX_COOKIE_SIZE) as [Hgt|Hle]; [discriminate|].
  intros [= <-]. split; [exact Hle|]. now exists d.
Qed.

(** X2: [encodeSession] calls [store.save] once, with the session it was
    given, and leaves the request alone; when [save] is rejected or never
    settles, [encodeSession]'s promise is rejected with the same reason,
    or never settles. *)
Theorem encodeSession_store_failure (self : Session) (s : value) (st : state) :
  snd (encodeSession self s st) =
    {| request := request st;
       world := snd (save (_store self) s (world st));
       calls := calls st ++ [Call_encodeSession s; Call_save s] |} /\
  match fst (save (_store self) s (world st)) with
  | Fulfilled _ => True
  | Rejected e => fst (encodeSession self s st) = Rejected e
  | Pending => fst (encodeSession self s st) = Pending
  end.
Proof.
  rewrite encodeSession_unfold. destruct (save _ _ _) as [[d|e|] w]; cbn zeta;
    now cbn [fst snd].
Qed.

(** X3: [decodeCookie] never changes the request.  When it returns a
    promise, that promise is [store.load]'s on a payload whose signature
    verified: the decoded cookie is the payload, ["--"] and the payload's
    hash, or it holds no ["--"] at all, the payload is empty and the cookie
    after its first character is the hash of the empty payload.  Otherwise
    it returns [null] and the store is not consulted. *)
Theorem decodeCookie_loads_only_verified
    (self : Session) (cookie : string) (st : state) :
  request (snd (decodeCookie self cookie st)) = request st /\
  match fst (decodeCookie self cookie st) with
  | Thenable p =>
      exists data,
        p = fst (load (_store self) data (world st)) /\
        calls (snd (decodeCookie self cookie st)) =
          (calls st ++ [Call_decodeCookie cookie; Call_load data])%list /\
        (decodeBase64 cookie = data ++ "--" ++ _makeHash data (_secret self) \/
         (occurs "--" (decodeBase64 cookie) = false /\ data = "" /\
          tail (decodeBase64 cookie) = _makeHash "" (_secret self)))
  | Plain r =>
      r = VNull /\
      world (snd (decodeCookie self cookie st)) = world st /\
      calls (snd (decodeCookie self cookie st)) =
        (calls st ++ [Call_decodeCookie cookie])%list
  end.
Proof.
  rewrite decodeCookie_unfold. cbn zeta.
  set (v := decodeBase64 cookie).
  destruct (String.eqb_spec (substring_from v (lastIndexOf v "--" + 2))
              (_makeHash (substring v 0 (lastIndexOf v "--")) (_secret self)))
    as [Heq|_]; cbn [fst snd request world calls]; [|now repeat split].
  split; [reflexivity|].
  exists (substring v 0 (lastIndexOf v "--")). repeat split.
  destruct (occurs "--" v) eqn:Hocc.
  - left. rewrite <- Heq. now apply split_at_last_delimiter.
  - right. split; [reflexivity|].
    assert (Hi : lastIndexOf v "--" = -1)
      by (unfold lastIndexOf; now apply lastIndexOf_from_absent).
    rewrite Hi in Heq. rewrite Hi.
    rewrite substring_to_minus_one in *. split; [reflexivity|].
    rewrite <- Heq. symmetry. apply substring_from_one.
Qed.

(** X4: with a codec whose decoding inverts its encoding and a digest
    free of ['-'], [decodeCookie] hands the payload of every correctly
    signed cookie to [store.load], however long the cookie is; when the
    secret is unset or empty the signature is the plain hash of the
    payload. *)
Theorem decodeCookie_accepts_signed (self : Session) (d : string) (st : state) :
  (forall x, decodeBase64 (encodeBase64 x) = x) ->
  (forall x, dash_free (makeHash x) = true) ->
  fst (decodeCookie self (encodeBase64 (d ++ "--" ++ _makeHash d (_secret self))) st) =
    Thenable (fst (load (_store self) d (world st))) /\
  (secret_missing (_secret self) = true ->
   fst (decodeCookie self (encodeBase64 (d ++ "--" ++ makeHash d)) st) =
     Thenable (fst (load (_store self) d (world st)))).
Proof.
  intros Hcodec Hdigest.
  assert (H : fst (decodeCookie self
                     (encodeBase64 (d ++ "--" ++ _makeHash d (_secret self))) st) =
              Thenable (fst (load (_store self) d (world st))))
    by now rewrite decodeCookie_signed.
  split; [exact H|]. intros Hmiss.
  replace (makeHash d) with (_makeHash d (_secret self)); [exact H|].
  unfold _makeHash, secret_missing in *.
  destruct (_secret self) as [k|]; [|reflexivity].
  now destruct (JsString.truthy k).
Qed.

End Codec.

(** ** The request lifecycle *)

Section Lifecycle.
Context {P : Platform}.

Local Ltac unfold_steps :=
  unfold on_session, on_decode_error, on_response, on_newCookie, on_encode_error,
    resolve_encoded, resolve_decoded, compute_expires, then1, then_, bind, ret,
    record, get_session, get_cookie, set_session, error_write, call_app, now,
    RSVP_resolve in *.

Local Ltac close_log :=
  cbn [fst snd calls request world];
  rewrite <- ?app_assoc; cbn [app];
  eexists; split; [reflexivity | repeat constructor].

Lemma apply_with_session (self : Session) (st : state) :
  truthy (session (request st)) = true ->
  apply self st = call_app (_app self) st.
Proof. intros H. unfold apply, bind, get_session. now rewrite H. Qed.

Lemma apply_without_session (self : Session) (st : state) :
  truthy (session (request st)) = false ->
  apply self st =
  let cookie := cookies (request st) !! _name self in
  let (p, st1) := resolve_decoded self cookie st in
  then_ p (on_session self cookie) (on_decode_error self) st1.
Proof. intros H. unfold apply, bind, get_session, get_cookie. now rewrite H. Qed.

Lemma resolve_decoded_unfold (self : Session) (cookie : option string) (st : state) :
  resolve_decoded self cookie st =
  match cookie with
  | Some c =>
      if JsString.truthy c
      then let (r, st') := decodeCookie self c st in (RSVP_resolve r, st')
      else (Fulfilled (VStr c), st)
  | None => (Fulfilled VUndefined, st)
  end.
Proof.
  unfold resolve_decoded, bind, ret.
  destruct cookie as [c|]; [|reflexivity].
  destruct (JsString.truthy c); [|reflexivity].
  now destruct (decodeCookie self c st).
Qed.

Lemma resolve_encoded_unfold (self : Session) (st : state) :
  resolve_encoded self st =
  if truthy (session (request st))
  then let (p, st') := encodeSession self (session (request st)) st in
       (promise_map VStr p, st')
  else (Fulfilled (session (request st)), st).
Proof.
  unfold resolve_encoded, bind, ret, get_session.
  destruct (truthy _); [|reflexivity].
  now destruct (encodeSession self _ st).
Qed.

(** Nothing after the application's response calls the application. *)
Lemma on_response_calls (self : Session) (cookie : option string)
    (response : Response) (st : state) :
  exists post,
    calls (snd (on_response self cookie response st)) = (calls st ++ post)%list /\
    Forall (fun c => is_Call_app c = false) post.
Proof.
  unfold on_response, bind. rewrite resolve_encoded_unfold.
  destruct (truthy _).
  - rewrite encodeSession_unfold. destruct (save _ _ _) as [[data|e|] w]; cbn zeta.
    + destruct (JsString.len _ >? _); unfold_steps; cbn [promise_map].
      * close_log.
      * destruct (_expireAfter self =? 0)%Z; cbn [expires_truthy negb];
          destruct (same_cookie _ _); cbn [andb]; close_log.
    + unfold_steps; cbn [promise_map]. close_log.
    + unfold_steps; cbn [promise_map]. exists [Call_encodeSession (session (request st)); Call_save (session (request st))].
      split; [reflexivity | repeat constructor].
  - unfold_steps.
    destruct (_expireAfter self =? 0)%Z; cbn [expires_truthy negb];
      destruct (same_cookie _ _); cbn [andb]; cbn [fst snd calls].
    + exists []. now rewrite app_nil_r.
    + close_log.
    + close_log.
    + close_log.
Qed.

(** The decoded-session callback assigns the session, calls the
    application, and stops there unless the application fulfils. *)
Lemma on_session_calls (self : Session) (cookie : option string)
    (v : value) (st : state) :
  let v' := if truthy v then v else empty_object in
  exists out post,
    calls (snd (on_session self cookie v st)) =
      (calls st ++ [Assign_session v'; Call_app (with_session v' (request st)) out]
         ++ post)%list /\
    Forall (fun c => is_Call_app c = false) post /\
    match out with
    | Fulfilled _ => True
    | _ => post = [] /\ fst (on_session self cookie v st) = out
    end.
Proof.
  intros v'. unfold on_session, bind, set_session, call_app. fold v'.
  cbn [request world calls].
  destruct (_app self _ _) as [[response|e|] [req w]]; unfold then1, then_, ret.
  - match goal with |- context [on_response ?a ?b ?c ?s] =>
      destruct (on_response_calls a b c s) as (post & Hpost & Hall) end.
    exists (Fulfilled response), post. rewrite Hpost. cbn [calls].
    rewrite <- !app_assoc. cbn [app]. now repeat split.
  - exists (Rejected e), []. cbn [fst snd calls].
    rewrite <- !app_assoc. cbn [app]. now repeat split.
  - exists Pending, []. cbn [fst snd calls].
    rewrite <- !app_assoc. cbn [app]. now repeat split.
Qed.

(** Decoding leaves the request alone and neither calls the application
    nor persists anything. *)
Lemma resolve_decoded_calls (self : Session) (cookie : option string) (st : state) :
  exists pre,
    calls (snd (resolve_decoded self cookie st)) = (calls st ++ pre)%list /\
    request (snd (resolve_decoded self cookie st)) = request st /\
    Forall (fun c => is_Call_app c = false /\ persists c = false) pre.
Proof.
  rewrite resolve_decoded_unfold.
  destruct cookie as [c|]; [destruct (JsString.truthy c)|].
  - rewrite decodeCookie_unfold. cbn zeta. destruct (String.eqb _ _); cbn [snd calls request].
    + eexists; repeat split. repeat constructor.
    + eexists; repeat split. repeat constructor.
  - exists []. cbn [snd]. now rewrite app_nil_r.
  - exists []. cbn [snd]. now rewrite app_nil_r.
Qed.

(** Every run of [apply] calls the application at most once; before that
    call nothing is persisted, and after it nothing happens unless the
    application fulfilled. *)
Lemma apply_shape (self : Session) (st : state) :
  exists pre,
    Forall (fun c => is_Call_app c = false /\ persists c = false) pre /\
    ((fst (apply self st) = Pending /\
      calls (snd (apply self st)) = (calls st ++ pre)%list) \/
     exists r out post,
       calls (snd (apply self st)) = (calls st ++ pre ++ Call_app r out :: post)%list /\
       Forall (fun c => is_Call_app c = false) post /\
       match out with
       | Fulfilled _ => True
       | _ => post = [] /\ fst (apply self st) = out
       end).
Proof.
  destruct (truthy (session (request st))) eqn:Hs.
  - rewrite apply_with_session by assumption. unfold call_app.
    destruct (_app self _ _) as [out [req w]]. cbn [fst snd calls].
    exists []. split; [constructor|]. right. exists (request st), out, [].
    repeat split; [constructor|]. now destruct out.
  - rewrite apply_without_session by assumption. cbn zeta.
    set (cookie := cookies (request st) !! _name self).
    destruct (resolve_decoded_calls self cookie st) as (pre & Hpre & Hreq & Hall).
    destruct (resolve_decoded self cookie st) as [[v|e|] st1];
      cbn [snd] in Hpre, Hreq; unfold then_.
    + destruct (on_session_calls self cookie v st1) as (out & post & Hlog & Hpost & Hout).
      cbn zeta in Hlog.
      exists (pre ++ [Assign_session (if truthy v then v else empty_object)])%list.
      split.
      { apply Forall_app. split; [assumption | repeat constructor]. }
      right. eexists _, out, post. rewrite Hlog, Hpre.
      rewrite <- !app_assoc. cbn [app]. now repeat split.
    + unfold on_decode_error, bind, error_write, call_app. cbn [request world calls].
      destruct (_app self _ _) as [out [req w]]. cbn [fst snd calls].
      exists (pre ++ [Write_error ("Error decoding session data: " ++ error_toString e)])%list.
      split.
      { apply Forall_app. split; [assumption | repeat constructor]. }
      right. eexists _, out, []. rewrite Hpre, <- !app_assoc. cbn [app].
      repeat split; [constructor|]. now destruct out.
    + exists pre. split; [assumption|]. left. now split.
Qed.

(** A signature mismatch takes the success path: the empty session is
    assigned and the application is called with it, nothing having been
    written to [request.error]. *)
Lemma apply_mismatch_calls (self : Session) (st : state) (cookie : string) :
  JsString.substring_from (decodeBase64 cookie)
      (JsString.lastIndexOf (decodeBase64 cookie) "--" + 2) <>
    _makeHash (JsString.substring (decodeBase64 cookie) 0
                 (JsString.lastIndexOf (decodeBase64 cookie) "--")) (_secret self) ->
  truthy (session (request st)) = false ->
  cookies (request st) !! _name self = Some cookie ->
  exists out post,
    calls (snd (apply self st)) =
      (calls st ++ (if JsString.truthy cookie then [Call_decodeCookie cookie] else [])
         ++ [Assign_session empty_object;
             Call_app (with_session empty_object (request st)) out] ++ post)%list.
Proof.
  intros Hne Hs Hc.
  rewrite apply_without_session by assumption. cbn zeta. rewrite Hc.
  rewrite resolve_decoded_unfold. destruct (JsString.truthy cookie) eqn:Ht.
  - rewrite decodeCookie_unfold. cbn zeta.
    destruct (String.eqb_spec
      (JsString.substring_from (decodeBase64 cookie)
         (JsString.lastIndexOf (decodeBase64 cookie) "--" + 2))
      (_makeHash (JsString.substring (decodeBase64 cookie) 0
         (JsString.lastIndexOf (decodeBase64 cookie) "--")) (_secret self)));
      [contradiction|].
    cbn [RSVP_resolve then_].
    match goal with |- context [on_session ?a ?b ?c ?s] =>
      destruct (on_session_calls a b c s) as (out & post & Hlog & _) end.
    cbn [truthy request calls] in Hlog.
    exists out, post. rewrite Hlog, <- !app_assoc. reflexivity.
  - cbn [then_].
    match goal with |- context [on_session ?a ?b ?c ?s] =>
      destruct (on_session_calls a b c s) as (out & post & Hlog & _) end.
    cbn [truthy] in Hlog. rewrite Ht in Hlog.
    exists out, post. rewrite Hlog. reflexivity.
Qed.

(** C1: when the signature cut from the decoded cookie differs from the
    one recomputed over the payload, [decodeCookie] returns [null], and a
    run of [apply] on a request that carries this cookie and no session
    assigns [{}] to [request.session] and then calls the application with
    that request. *)
Theorem mismatch_gives_empty_session
    (self : Session) (st : state) (cookie : string) :
  JsString.substring_from (decodeBase64 cookie)
      (JsString.lastIndexOf (decodeBase64 cookie) "--" + 2) <>
    _makeHash (JsString.substring (decodeBase64 cookie) 0
                 (JsString.lastIndexOf (decodeBase64 cookie) "--")) (_secret self) ->
  fst (decodeCookie self cookie st) = Plain VNull /\
  (truthy (session (request st)) = false ->
   cookies (request st) !! _name self = Some cookie ->
   exists out post,
     calls (snd (apply self st)) =
       (calls st ++ (if JsString.truthy cookie then [Call_decodeCookie cookie] else [])
          ++ [Assign_session empty_object;
              Call_app (with_session empty_object (request st)) out] ++ post)%list /\
     session (with_session empty_object (request st)) = VObj ∅).
Proof.
  intros Hne. split.
  - rewrite decodeCookie_unfold. cbn zeta.
    destruct (String.eqb_spec
      (JsString.substring_from (decodeBase64 cookie)
         (JsString.lastIndexOf (decodeBase64 cookie) "--" + 2))
      (_makeHash (JsString.substring (decodeBase64 cookie) 0
         (JsString.lastIndexOf (decodeBase64 cookie) "--")) (_secret self)));
      [contradiction | reflexivity].
  - intros Hs Hc.
    destruct (apply_mismatch_calls self st cookie Hne Hs Hc) as (out & post & Hlog).
    exists out, post. now split.
Qed.

(** C3, as the code has it: on a request without a session whose cookie
    reaches [decodeCookie], a rejected [store.load] is the failure that is
    logged, after which the application is called on the request as it
    was, no session having been assigned; when [decodeCookie] returns
    [null] instead, nothing is logged and the application is called with
    the session [{}]. *)
Theorem decode_failure_paths
    (self : Session) (st : state) (cookie : string) :
  truthy (session (request st)) = false ->
  cookies (request st) !! _name self = Some cookie ->
  JsString.truthy cookie = true ->
  let log := calls (snd (apply self st)) in
  let data := JsString.substring (decodeBase64 cookie) 0
                (JsString.lastIndexOf (decodeBase64 cookie) "--") in
  match fst (decodeCookie self cookie st) with
  | Thenable (Rejected e) =>
      let line := "Error decoding session data: " ++ error_toString e in
      let r := with_error_line line (request st) in
      exists out,
        log = (calls st ++ [Call_decodeCookie cookie; Call_load data;
                            Write_error line; Call_app r out])%list /\
        fst (apply self st) = out /\
        session r = session (request st)
  | Thenable _ => True
  | Plain _ =>
      exists out post,
        log = (calls st ++ [Call_decodeCookie cookie; Assign_session empty_object;
                            Call_app (with_session empty_object (request st)) out]
                 ++ post)%list
  end.
Proof.
  intros Hs Hc Ht log data. unfold log.
  rewrite apply_without_session by assumption. cbn zeta. rewrite Hc.
  rewrite resolve_decoded_unfold, Ht, decodeCookie_unfold. cbn zeta. fold data.
  destruct (String.eqb _ _); cbn [fst RSVP_resolve].
  - destruct (load _ _ _) as [[v|e|] w]; cbn [fst snd]; try exact I.
    cbn [then_]. unfold on_decode_error, bind, error_write, call_app.
    cbn [request world calls].
    destruct (_app self _ _) as [out [req w']]. exists out.
    cbn [fst snd calls]. rewrite <- !app_assoc. now repeat split.
  - cbn [then_].
    match goal with |- context [on_session ?a ?b ?c ?s] =>
      destruct (on_session_calls a b c s) as (out & post & Hlog & _) end.
    cbn [truthy request calls] in Hlog.
    exists out, post. rewrite Hlog, <- !app_assoc. reflexivity.
Qed.

(** C4: on a request without a session, once decoding has settled, the
    application has fulfilled with [response] and [encodeSession] is
    rejected, [apply] writes one line to [request.error] and fulfils with
    that same [response]; [setCookie] is not called during the run. *)
Theorem encode_failure_returns_response
    (self : Session) (st st1 st2 st3 : state) (v : value)
    (response : Response) (e : JsError) :
  truthy (session (request st)) = false ->
  resolve_decoded self (cookies (request st) !! _name self) st = (Fulfilled v, st1) ->
  call_app (_app self) (snd (set_session (if truthy v then v else empty_object) st1))
    = (Fulfilled response, st2) ->
  truthy (session (request st2)) = true ->
  encodeSession self (session (request st2)) st2 = (Rejected e, st3) ->
  let line := "Error encoding session data: " ++ error_toString e in
  apply self st = (Fulfilled response, snd (error_write line st3)) /\
  exists l, calls (snd (apply self st)) = (calls st ++ l)%list /\
            Write_error line ∈ l /\
            forall name attrs, Call_setCookie name attrs ∉ l.
Proof.
  intros Hs Hdec Happ Hs2 Henc line.
  assert (Hrun : apply self st = (Fulfilled response, snd (error_write line st3))).
  { rewrite apply_without_session by assumption. cbn zeta. rewrite Hdec.
    cbn [then_]. unfold on_session at 1. unfold bind at 1.
    destruct (set_session _ st1) as [[] st1'] eqn:Hset. cbn [snd] in Happ.
    unfold bind at 1. rewrite Happ. unfold then1, then_.
    unfold on_response, bind. rewrite resolve_encoded_unfold, Hs2, Henc.
    cbn [promise_map then_]. reflexivity. }
  split; [exact Hrun|].
  rewrite Hrun. cbn [snd error_write calls].
  destruct (resolve_decoded_calls self (cookies (request st) !! _name self) st)
    as (pre & Hpre & _ & Hall).
  rewrite Hdec in Hpre. cbn [snd] in Hpre.
  unfold call_app, set_session in Happ. cbn [snd request world calls] in Happ.
  destruct (_app self _ _) as [out [req w]]. injection Happ as -> <-.
  rewrite encodeSession_unfold in Henc. cbn [world request calls] in Henc.
  destruct (save _ _ _) as [p w']. cbn zeta in Henc.
  assert (Hst3 : calls st3 = (calls st1 ++ [Assign_session (if truthy v then v else empty_object);
             Call_app (with_session (if truthy v then v else empty_object) (request st1))
               (Fulfilled response);
             Call_encodeSession (session req); Call_save (session req)])%list).
  { destruct p as [d| |]; [destruct (_ >? _)| |];
      try discriminate Henc; injection Henc as _ <-;
      cbn [calls]; now rewrite <- !app_assoc. }
  rewrite Hst3, Hpre, <- !app_assoc. eexists. split; [reflexivity|].
  split.
  - rewrite !elem_of_app, !elem_of_cons. intuition.
  - intros name attrs Hin. rewrite !elem_of_app, !elem_of_cons, !elem_of_nil in Hin.
    destruct Hin as [Hin|Hin]; [|intuition discriminate].
    rewrite Forall_forall in Hall. destruct (Hall _ Hin) as [_ Hp]. discriminate Hp.
Qed.

(** C6: if, during a run of [apply], the application's promise is
    rejected with [e], then [apply]'s promise is rejected with the same
    [e], the call to the application is the last thing the run does, and
    the run neither saves, nor encodes, nor sets a cookie. *)
Theorem handler_failure_propagates
    (self : Session) (st : state) (l : list call) (r : Request) (e : JsError) :
  calls (snd (apply self st)) = (calls st ++ l)%list ->
  Call_app r (Rejected e) ∈ l ->
  fst (apply self st) = Rejected e /\
  Forall (fun c => persists c = false) l /\
  exists pre, l = (pre ++ [Call_app r (Rejected e)])%list.
Proof.
  intros Hl Hin.
  destruct (apply_shape self st) as (pre & Hpre & [[_ Hlog]|(r' & out & post & Hlog & Hpost & Hout)]);
    rewrite Hlog in Hl; apply app_inv_head in Hl; subst l.
  - rewrite Forall_forall in Hpre. destruct (Hpre _ Hin) as [Hc _]. discriminate Hc.
  - rewrite elem_of_app, elem_of_cons in Hin. destruct Hin as [Hin|[Heq|Hin]].
    + rewrite Forall_forall in Hpre. destruct (Hpre _ Hin) as [Hc _]. discriminate Hc.
    + injection Heq as <- <-. destruct Hout as [-> Hres].
      split; [exact Hres|]. split; [|now exists pre].
      apply Forall_app. split; [|now repeat constructor].
      eapply Forall_impl; [exact Hpre|]. now intros c [_ Hc].
    + rewrite Forall_forall in Hpost. specialize (Hpost _ Hin). discriminate Hpost.
Qed.

(** C7: on a request whose [session] is already truthy, [apply] does
    nothing but call the application on that request: its promise, the
    request and the world are the application's, and the call is the only
    entry added to the log. *)
Theorem existing_session_passes_through (self : Session) (st : state) :
  truthy (session (request st)) = true ->
  let '(out, (req, w)) := _app self (request st) (world st) in
  apply self st =
    (out, {| request := req; world := w;
             calls := calls st ++ [Call_app (request st) out] |}).
Proof.
  intros Hs. rewrite apply_with_session by assumption. unfold call_app.
  now destruct (_app self _ _) as [out [req w]].
Qed.

(** C8: on a request without a session, once the application has
    fulfilled with [response] and the cookie has been encoded: with
    [expireAfter = 0] and an encoded value equal to the incoming cookie,
    [apply] fulfils with [response] untouched and does not call
    [setCookie]; with [expireAfter > 0] it calls [setCookie] with the
    expiry date [Date.now() + expireAfter * 1000], whatever the value. *)
Theorem cookie_skipped_or_refreshed
    (self : Session) (st st1 st2 st3 : state) (v newCookie : value)
    (response : Response) :
  truthy (session (request st)) = false ->
  resolve_decoded self (cookies (request st) !! _name self) st = (Fulfilled v, st1) ->
  call_app (_app self) (snd (set_session (if truthy v then v else empty_object) st1))
    = (Fulfilled response, st2) ->
  resolve_encoded self st2 = (Fulfilled newCookie, st3) ->
  (_expireAfter self = 0 ->
   (exists c, cookies (request st) !! _name self = Some c /\ newCookie = VStr c) ->
   apply self st = (Fulfilled response, st3)) /\
  (0 < _expireAfter self ->
   let attrs := {| c_value := newCookie;
                   c_path := _path self;
                   c_domain := _domain self;
                   c_expires := ExpiresDate (Date_now (world st3) + _expireAfter self * 1000);
                   c_httpOnly := _isHttpOnly self;
                   c_secure := _isSecure self |} in
   apply self st =
     (Fulfilled (setCookie response (_name self) attrs),
      {| request := request st3; world := world st3;
         calls := calls st3 ++ [Call_setCookie (_name self) attrs] |})).
Proof.
  intros Hs Hdec Happ Henc.
  assert (Hrun : apply self st =
                 on_newCookie self (cookies (request st) !! _name self) response newCookie st3).
  { rewrite apply_without_session by assumption. cbn zeta. rewrite Hdec.
    cbn [then_]. unfold on_session at 1. unfold bind at 1.
    destruct (set_session _ st1) as [[] st1'] eqn:Hset. cbn [snd] in Happ.
    unfold bind at 1. rewrite Happ. unfold then1, then_.
    unfold on_response, bind. now rewrite Henc. }
  rewrite Hrun. unfold on_newCookie, compute_expires, bind, ret, now, record. split.
  - intros -> (c & -> & ->). cbn [Z.eqb same_cookie expires_truthy negb].
    unfold JsString.strict_eq. now rewrite String.eqb_refl.
  - intros Hpos. destruct (Z.eqb_spec (_expireAfter self) 0) as [Hz|_]; [lia|].
    cbn [expires_truthy negb]. now rewrite andb_false_r.
Qed.

(** *** Counting log entries *)

Lemma count_calls_app (f : call -> bool) (a b : list call) :
  count_calls f (a ++ b) = (count_calls f a + count_calls f b)%nat.
Proof. unfold count_calls. now rewrite List.filter_app, length_app. Qed.

Lemma count_calls_none (f : call -> bool) (l : list call) :
  Forall (fun c => f c = false) l -> count_calls f l = 0%nat.
Proof.
  unfold count_calls. induction 1 as [|c l Hc _ IH]; [reflexivity|].
  cbn [List.filter]. now rewrite Hc.
Qed.

Lemma count_calls_elem (f : call -> bool) (c : call) (l : list call) :
  c ∈ l -> f c = true -> (1 <= count_calls f l)%nat.
Proof.
  unfold count_calls. induction 1 as [c l|c c' l _ IH]; intros Hc; cbn [List.filter].
  - rewrite Hc. cbn [List.length]. lia.
  - specialize (IH Hc). destruct (f c'); cbn [List.length]; lia.
Qed.

Lemma count_calls_zero (f : call -> bool) (c : call) (l : list call) :
  count_calls f l = 0%nat -> c ∈ l -> f c = false.
Proof.
  intros Hz Hin. destruct (f c) eqn:Hc; [|reflexivity].
  pose proof (count_calls_elem f c l Hin Hc). lia.
Qed.

(** *** What each phase adds to the log *)

(** Decoding adds only [decodeCookie] and [store.load] entries. *)
Lemma resolve_decoded_log (self : Session) (cookie : option string) (st : state) :
  exists pre,
    calls (snd (resolve_decoded self cookie st)) = (calls st ++ pre)%list /\
    request (snd (resolve_decoded self cookie st)) = request st /\
    Forall (fun c => decodes c = true) pre.
Proof.
  rewrite resolve_decoded_unfold.
  destruct cookie as [c|]; [destruct (JsString.truthy c)|].
  - rewrite decodeCookie_unfold. cbn zeta. destruct (String.eqb _ _); cbn [snd calls request].
    + eexists; repeat split. repeat constructor.
    + eexists; repeat split. repeat constructor.
  - exists []. cbn [snd]. now rewrite app_nil_r.
  - exists []. cbn [snd]. now rewrite app_nil_r.
Qed.

(** The cookie callback either returns the response as it is or sets one
    cookie that carries the configuration. *)
Lemma on_newCookie_log (self : Session) (cookie : option string)
    (response : Response) (newCookie : value) (st : state) :
  (forall v, newCookie = VStr v -> JsString.len v <= MAX_COOKIE_SIZE) ->
  exists post,
    snd (on_newCookie self cookie response newCookie st) =
      {| request := request st; world := world st; calls := calls st ++ post |} /\
    (post = [] \/
     exists attrs, post = [Call_setCookie (_name self) attrs] /\
                   cookie_call_ok self (Call_setCookie (_name self) attrs)).
Proof.
  intros Hlen. unfold on_newCookie, compute_expires, bind, ret, now, record.
  destruct (Z.eqb_spec (_expireAfter self) 0) as [Hz|Hnz]; cbn [expires_truthy negb].
  - rewrite andb_true_r. destruct (same_cookie newCookie cookie); cbn [snd].
    + exists []. split; [|now left]. rewrite app_nil_r. now destruct st.
    + eexists. split; [reflexivity|]. right. eexists. split; [reflexivity|].
      cbn. repeat split; auto.
  - rewrite andb_false_r. cbn [snd].
    eexists. split; [reflexivity|]. right. eexists. split; [reflexivity|].
    cbn. repeat split; auto; [discriminate | contradiction].
Qed.

Local Ltac log_goals :=
  repeat match goal with
         | |- _ /\ _ => split
         | |- Forall _ _ => repeat (first [assumption | exact I | constructor])
         | |- (_ <= _)%nat => unfold count_calls; simpl; lia
         | |- _ = _ => reflexivity
         end.

(** After the application's response: the application is not called
    again, at most one cookie is set or one line written, never both, every
    cookie carries the configuration, and the request keeps its cookies
    and its session. *)
Lemma on_response_log (self : Session) (cookie : option string)
    (response : Response) (st : state) :
  exists post,
    calls (snd (on_response self cookie response st)) = (calls st ++ post)%list /\
    Forall (fun c => is_Call_app c = false) post /\
    Forall (cookie_call_ok self) post /\
    (count_calls is_Call_setCookie post + count_calls is_Write_error post <= 1)%nat /\
    cookies (request (snd (on_response self cookie response st))) = cookies (request st) /\
    session (request (snd (on_response self cookie response st))) = session (request st).
Proof.
  unfold on_response, bind. rewrite resolve_encoded_unfold.
  destruct (truthy (session (request st))) eqn:Hs.
  - rewrite encodeSession_unfold. destruct (save _ _ _) as [[data|e|] w]; cbn zeta.
    + destruct (Z.gtb_spec (JsString.len
          (encodeBase64 (data ++ "--" ++ _makeHash data (_secret self)))) MAX_COOKIE_SIZE)
        as [Hgt|Hle]; cbn [promise_map then_].
      * unfold on_encode_error, bind, error_write, ret. cbn [snd calls request].
        rewrite <- app_assoc. eexists. split; [reflexivity|]. log_goals.
      * match goal with |- context [on_newCookie ?a ?b ?c ?v ?s] =>
          destruct (on_newCookie_log a b c v s) as (post & -> & Hpost) end.
        { now intros v [= <-]. }
        cbn [snd calls request]. rewrite <- app_assoc. eexists. split; [reflexivity|].
        destruct Hpost as [->|(attrs & -> & Hok)]; log_goals.
    + cbn [promise_map then_].
      unfold on_encode_error, bind, error_write, ret. cbn [snd calls request].
      rewrite <- app_assoc. eexists. split; [reflexivity|]. log_goals.
    + cbn [promise_map then_]. unfold ret. cbn [snd calls request].
      eexists. split; [reflexivity|]. log_goals.
  - cbn [then_].
    match goal with |- context [on_newCookie ?a ?b ?c ?v ?s] =>
      destruct (on_newCookie_log a b c v s) as (post & -> & Hpost) end.
    { intros v Hv. rewrite Hv in Hs. cbn [truthy] in Hs. unfold JsString.truthy in Hs.
      destruct (String.eqb_spec v ""); [subst v|discriminate Hs].
      unfold JsString.len, MAX_COOKIE_SIZE. simpl. lia. }
    cbn [snd calls request]. exists post. split; [reflexivity|].
    destruct Hpost as [->|(attrs & -> & Hok)]; log_goals.
Qed.

(** A whole run: every cookie set carries the configuration, at most one
    cookie is set or one line written, never both, and the application is
    called at most once. *)
Lemma apply_log (self : Session) (st : state) :
  exists l,
    calls (snd (apply self st)) = (calls st ++ l)%list /\
    Forall (cookie_call_ok self) l /\
    (count_calls is_Call_setCookie l + count_calls is_Write_error l <= 1)%nat /\
    (count_calls is_Call_app l <= 1)%nat.
Proof.
  destruct (truthy (session (request st))) eqn:Hs.
  - rewrite apply_with_session by assumption. unfold call_app.
    destruct (_app self _ _) as [out [req w]]. cbn [snd calls].
    eexists. split; [reflexivity|]. repeat split; repeat constructor.
  - rewrite apply_without_session by assumption. cbn zeta.
    set (cookie := cookies (request st) !! _name self).
    destruct (resolve_decoded_log self cookie st) as (pre & Hpre & _ & Hall).
    assert (Hok : Forall (cookie_call_ok self) pre).
    { eapply Forall_impl; [exact Hall|]. now intros [] Hc. }
    assert (Hc1 : count_calls is_Call_setCookie pre = 0%nat).
    { apply count_calls_none. eapply Forall_impl; [exact Hall|]. now intros [] Hc. }
    assert (Hc2 : count_calls is_Write_error pre = 0%nat).
    { apply count_calls_none. eapply Forall_impl; [exact Hall|]. now intros [] Hc. }
    assert (Hc3 : count_calls is_Call_app pre = 0%nat).
    { apply count_calls_none. eapply Forall_impl; [exact Hall|]. now intros [] Hc. }
    destruct (resolve_decoded self cookie st) as [[v|e|] st1];
      cbn [snd] in Hpre; unfold then_.
    + unfold on_session, bind, set_session, call_app. cbn [request world calls].
      destruct (_app self _ _) as [[response|e|] [req w]]; unfold then1, then_, ret.
      * match goal with |- context [on_response ?a ?b ?c ?s] =>
          destruct (on_response_log a b c s) as (post & Hpost & Hna & Hpok & Hcnt & _) end.
        rewrite Hpost. cbn [calls]. rewrite Hpre, <- !app_assoc. cbn [app].
        eexists. split; [reflexivity|].
        rewrite !count_calls_app, Hc1, Hc2, Hc3.
        change (?a :: ?b :: post) with ([a; b] ++ post)%list.
        rewrite !count_calls_app. rewrite (count_calls_none is_Call_app post Hna).
        repeat split.
        -- apply Forall_app. split; [exact Hok|]. apply Forall_app.
           split; [repeat constructor | exact Hpok].
        -- cbn. lia.
        -- cbn. lia.
      * cbn [snd calls]. rewrite Hpre, <- !app_assoc. cbn [app].
        eexists. split; [reflexivity|]. rewrite !count_calls_app, Hc1, Hc2, Hc3.
        repeat split; [|cbn; lia|cbn; lia].
        apply Forall_app. split; [exact Hok | repeat constructor].
      * cbn [snd calls]. rewrite Hpre, <- !app_assoc. cbn [app].
        eexists. split; [reflexivity|]. rewrite !count_calls_app, Hc1, Hc2, Hc3.
        repeat split; [|cbn; lia|cbn; lia].
        apply Forall_app. split; [exact Hok | repeat constructor].
    + unfold on_decode_error, bind, error_write, call_app. cbn [request world calls].
      destruct (_app self _ _) as [out [req w]]. cbn [snd calls].
      rewrite Hpre, <- !app_assoc. cbn [app].
      eexists. split; [reflexivity|]. rewrite !count_calls_app, Hc1, Hc2, Hc3.
      repeat split; [|cbn; lia|cbn; lia].
      apply Forall_app. split; [exact Hok | repeat constructor].
    + cbn [snd]. exists pre. rewrite Hc1, Hc2, Hc3. repeat split; auto.
Qed.

(** *** Further properties of a run *)

(** Once decoding has fulfilled and the application has fulfilled, the
    rest of the run is the response callback. *)
Lemma apply_after_response
    (self : Session) (st st1 st2 : state) (v : value) (response : Response) :
  truthy (session (request st)) = false ->
  resolve_decoded self (cookies (request st) !! _name self) st = (Fulfilled v, st1) ->
  call_app (_app self) (snd (set_session (if truthy v then v else empty_object) st1))
    = (Fulfilled response, st2) ->
  apply self st = on_response self (cookies (request st) !! _name self) response st2.
Proof.
  intros Hs Hdec Happ.
  rewrite apply_without_session by assumption. cbn zeta. rewrite Hdec.
  cbn [then_]. unfold on_session at 1. unfold bind at 1.
  destruct (set_session _ st1) as [[] st1'] eqn:Hset. cbn [snd] in Happ.
  unfold bind at 1. now rewrite Happ.
Qed.


(** X6: whatever persists a session in a run (a call of [encodeSession],
    of [store.save] or of [setCookie]) comes after a call of the
    application that fulfilled; nothing of the kind precedes that call. *)
Theorem persists_only_after_fulfilled
    (self : Session) (st : state) (l : list call) (c : call) :
  calls (snd (apply self st)) = (calls st ++ l)%list ->
  c ∈ l ->
  persists c = true ->
  exists pre r response post,
    l = (pre ++ Call_app r (Fulfilled response) :: post)%list /\
    c ∈ post /\
    Forall (fun c' => persists c' = false) pre.
Proof.
  intros Hl Hin Hp.
  destruct (apply_shape self st)
    as (pre & Hpre & [[_ Hlog]|(r & out & post & Hlog & Hpost & Hout)]);
    rewrite Hlog in Hl; apply app_inv_head in Hl; subst l.
  - rewrite Forall_forall in Hpre. destruct (Hpre _ Hin) as [_ Hc]. congruence.
  - assert (Hnp : Forall (fun c' => persists c' = false) pre).
    { eapply Forall_impl; [exact Hpre|]. now intros c' [_ Hc]. }
    rewrite elem_of_app, elem_of_cons in Hin. destruct Hin as [Hin|[->|Hin]].
    + rewrite Forall_forall in Hnp. specialize (Hnp _ Hin). congruence.
    + discriminate Hp.
    + destruct out as [response|e|].
      * now exists pre, r, response, post.
      * destruct Hout as [-> _]. now apply elem_of_nil in Hin.
      * destruct Hout as [-> _]. now apply elem_of_nil in Hin.
Qed.

(** X7: every [setCookie] call of a run uses the configured name, path,
    domain, [httpOnly] and [secure], carries an expiry exactly when
    [expireAfter] is not zero, and never a string value longer than
    [MAX_COOKIE_SIZE]; a run sets at most one cookie. *)
Theorem cookies_carry_configuration (self : Session) (st : state) :
  exists l,
    calls (snd (apply self st)) = (calls st ++ l)%list /\
    Forall (cookie_call_ok self) l /\
    (count_calls is_Call_setCookie l <= 1)%nat.
Proof.
  destruct (apply_log self st) as (l & Hl & Hok & Hcnt & _).
  exists l. repeat split; [assumption | assumption | lia].
Qed.

(** X8: a run writes at most one line to [request.error], and a run that
    writes one sets no cookie. *)
Theorem diagnostic_means_no_cookie
    (self : Session) (st : state) (l : list call) (line : string) :
  calls (snd (apply self st)) = (calls st ++ l)%list ->
  Write_error line ∈ l ->
  count_calls is_Write_error l = 1%nat /\
  forall name attrs, Call_setCookie name attrs ∉ l.
Proof.
  intros Hl Hin.
  destruct (apply_log self st) as (l' & Hl' & _ & Hcnt & _).
  rewrite Hl' in Hl. apply app_inv_head in Hl. subst l'.
  pose proof (count_calls_elem is_Write_error _ _ Hin eq_refl) as Hge.
  split; [lia|]. intros name attrs Hc.
  assert (Hz : count_calls is_Call_setCookie l = 0%nat) by lia.
  pose proof (count_calls_zero _ _ _ Hz Hc) as Hf. discriminate Hf.
Qed.

(** X9: a request that carries neither a session nor a cookie (or an
    empty cookie) is not decoded: the first things a run does are to
    assign [{}] to [request.session] and to call the application. *)
Theorem fresh_request_gets_empty_session (self : Session) (st : state) :
  truthy (session (request st)) = false ->
  cookies (request st) !! _name self = None \/
    cookies (request st) !! _name self = Some "" ->
  exists out post,
    calls (snd (apply self st)) =
      (calls st ++ [Assign_session empty_object;
                    Call_app (with_session empty_object (request st)) out] ++ post)%list.
Proof.
  intros Hs Hc. rewrite apply_without_session by assumption. cbn zeta.
  rewrite resolve_decoded_unfold.
  destruct Hc as [-> | ->]; cbn [JsString.truthy String.eqb negb then_];
    match goal with |- context [on_session ?a ?b ?c ?s] =>
      destruct (on_session_calls a b c s) as (out & post & Hlog & _) end;
    cbn in Hlog; now exists out, post.
Qed.

(** X10: when the cookie verifies and [store.load] fulfils with [v], the
    application is called with [request.session] set to [v], or to [{}]
    when [v] is falsy, as a session the store no longer has is. *)
Theorem loaded_session_is_attached
    (self : Session) (st st1 : state) (cookie : string) (v : value) :
  truthy (session (request st)) = false ->
  cookies (request st) !! _name self = Some cookie ->
  JsString.truthy cookie = true ->
  decodeCookie self cookie st = (Thenable (Fulfilled v), st1) ->
  let v' := if truthy v then v else empty_object in
  exists out post,
    calls (snd (apply self st)) =
      (calls st1 ++ [Assign_session v'; Call_app (with_session v' (request st)) out]
         ++ post)%list.
Proof.
  intros Hs Hc Ht Hdec v'.
  assert (Hreq : request st1 = request st).
  { pose proof (decodeCookie_unfold self cookie st) as Hu. cbn zeta in Hu.
    rewrite Hdec in Hu. destruct (String.eqb _ _); injection Hu as _ ->; reflexivity. }
  rewrite apply_without_session by assumption. cbn zeta. rewrite Hc.
  rewrite resolve_decoded_unfold, Ht, Hdec. cbn [RSVP_resolve then_].
  destruct (on_session_calls self (Some cookie) v st1) as (out & post & Hlog & _).
  cbn zeta in Hlog. fold v' in Hlog. rewrite Hreq in Hlog. now exists out, post.
Qed.

(** X11: while [store.load] has not settled the run does not go on: the
    promise of [apply] is pending and the application has not been
    called. *)
Theorem pending_load_stalls
    (self : Session) (st st1 : state) (cookie : string) :
  truthy (session (request st)) = false ->
  cookies (request st) !! _name self = Some cookie ->
  JsString.truthy cookie = true ->
  decodeCookie self cookie st = (Thenable Pending, st1) ->
  apply self st = (Pending, st1) /\
  exists data,
    calls st1 = (calls st ++ [Call_decodeCookie cookie; Call_load data])%list /\
    request st1 = request st.
Proof.
  intros Hs Hc Ht Hdec. split.
  - rewrite apply_without_session by assumption. cbn zeta. rewrite Hc.
    now rewrite resolve_decoded_unfold, Ht, Hdec.
  - pose proof (decodeCookie_unfold self cookie st) as Hu. cbn zeta in Hu.
    rewrite Hdec in Hu. destruct (String.eqb _ _); [|discriminate Hu].
    injection Hu as _ ->. eexists. now split.
Qed.

(** X12: after the application has fulfilled and the cookie has been
    encoded, a value that differs from the incoming cookie, or an
    [expireAfter] other than zero (negative ones too), makes [apply] set
    the cookie, with the number [0] as expiry when [expireAfter] is zero. *)
Theorem changed_cookie_is_set
    (self : Session) (st st1 st2 st3 : state) (v newCookie : value)
    (response : Response) :
  truthy (session (request st)) = false ->
  resolve_decoded self (cookies (request st) !! _name self) st = (Fulfilled v, st1) ->
  call_app (_app self) (snd (set_session (if truthy v then v else empty_object) st1))
    = (Fulfilled response, st2) ->
  resolve_encoded self st2 = (Fulfilled newCookie, st3) ->
  same_cookie newCookie (cookies (request st) !! _name self) = false \/
    _expireAfter self <> 0 ->
  let attrs := {| c_value := newCookie;
                  c_path := _path self;
                  c_domain := _domain self;
                  c_expires := if Z.eqb (_expireAfter self) 0 then ExpiresZero
                               else ExpiresDate (Date_now (world st3)
                                                 + _expireAfter self * 1000);
                  c_httpOnly := _isHttpOnly self;
                  c_secure := _isSecure self |} in
  apply self st =
    (Fulfilled (setCookie response (_name self) attrs),
     {| request := request st3; world := world st3;
        calls := calls st3 ++ [Call_setCookie (_name self) attrs] |}).
Proof.
  intros Hs Hdec Happ Henc Hchg attrs. unfold attrs.
  rewrite (apply_after_response self st st1 st2 v response) by assumption.
  unfold on_response, bind. rewrite Henc. cbn [then_].
  unfold on_newCookie, compute_expires, bind, ret, now, record.
  destruct (Z.eqb_spec (_expireAfter self) 0) as [Hz|Hnz]; cbn [expires_truthy negb].
  - destruct Hchg as [Hne|Hne]; [|contradiction]. now rewrite Hne.
  - now rewrite andb_false_r.
Qed.

(** X13: when the application leaves [request.session] falsy, nothing is
    saved or encoded; the cookie value is that falsy session itself, and
    it is set unless it is [===] to the incoming cookie (both undefined,
    or both the empty string) while [expireAfter] is zero. *)
Theorem cleared_session_skips_save
    (self : Session) (st st1 st2 : state) (v : value) (response : Response) :
  truthy (session (request st)) = false ->
  resolve_decoded self (cookies (request st) !! _name self) st = (Fulfilled v, st1) ->
  call_app (_app self) (snd (set_session (if truthy v then v else empty_object) st1))
    = (Fulfilled response, st2) ->
  truthy (session (request st2)) = false ->
  let attrs := {| c_value := session (request st2);
                  c_path := _path self;
                  c_domain := _domain self;
                  c_expires := if Z.eqb (_expireAfter self) 0 then ExpiresZero
                               else ExpiresDate (Date_now (world st2)
                                                 + _expireAfter self * 1000);
                  c_httpOnly := _isHttpOnly self;
                  c_secure := _isSecure self |} in
  apply self st =
    if same_cookie (session (request st2)) (cookies (request st) !! _name self)
       && Z.eqb (_expireAfter self) 0
    then (Fulfilled response, st2)
    else (Fulfilled (setCookie response (_name self) attrs),
          {| request := request st2; world := world st2;
             calls := calls st2 ++ [Call_setCookie (_name self) attrs] |}).
Proof.
  intros Hs Hdec Happ Hf attrs. unfold attrs.
  rewrite (apply_after_response self st st1 st2 v response) by assumption.
  unfold on_response, bind. rewrite resolve_encoded_unfold, Hf. cbn [then_].
  unfold on_newCookie, compute_expires, bind, ret, now, record.
  destruct (Z.eqb_spec (_expireAfter self) 0) as [Hz|Hnz]; cbn [expires_truthy negb].
  - now destruct (same_cookie _ _).
  - now rewrite !andb_false_r.
Qed.

(** X14: presenting again a cookie of this middleware gives no new
    cookie when nothing changed: with [expireAfter] zero, a codec whose
    decoding inverts its encoding and a digest free of ['-'], if the store
    loads the session [s] from the cookie's token [d], the application
    fulfils leaving [s] in place, and the store saves [s] under [d] again,
    then [apply] fulfils with the application's response and [setCookie] is
    not called. *)
Theorem unchanged_session_sets_no_cookie
    (self : Session) (st : state) (d : string) (s : value)
    (response : Response) (req : Request) (w1 w2 w3 : World) :
  (forall x, decodeBase64 (encodeBase64 x) = x) ->
  (forall x, JsString.dash_free (makeHash x) = true) ->
  let cookie := encodeBase64 (d ++ "--" ++ _makeHash d (_secret self)) in
  _expireAfter self = 0 ->
  truthy (session (request st)) = false ->
  cookies (request st) !! _name self = Some cookie ->
  JsString.truthy cookie = true ->
  JsString.len cookie <= MAX_COOKIE_SIZE ->
  load (_store self) d (world st) = (Fulfilled s, w1) ->
  truthy s = true ->
  _app self (with_session s (request st)) w1 = (Fulfilled response, (req, w2)) ->
  session req = s ->
  save (_store self) s w2 = (Fulfilled d, w3) ->
  apply self st =
    (Fulfilled response,
     {| request := req; world := w3;
        calls := calls st ++
                 [Call_decodeCookie cookie; Call_load d; Assign_session s;
                  Call_app (with_session s (request st)) (Fulfilled response);
                  Call_encodeSession s; Call_save s] |}).
Proof.
  intros Hcodec Hdigest cookie Hexp Hs Hc Ht Hlen Hload Hts Happ Hkeep Hsave.
  rewrite apply_without_session by assumption. cbn zeta. rewrite Hc.
  rewrite resolve_decoded_unfold, Ht. unfold cookie at 1.
  rewrite decodeCookie_signed by assumption. rewrite Hload.
  cbn [fst snd RSVP_resolve then_].
  unfold on_session, bind, set_session, call_app. rewrite Hts.
  cbn [request world calls]. rewrite Happ. unfold then1, then_.
  unfold on_response, bind. rewrite resolve_encoded_unfold.
  cbn [request]. rewrite Hkeep, Hts, encodeSession_unfold.
  cbn [request world calls]. rewrite Hsave. cbn zeta. fold cookie.
  destruct (Z.gtb_spec (JsString.len cookie) MAX_COOKIE_SIZE) as [Hgt|_]; [lia|].
  cbn [promise_map then_].
  unfold on_newCookie, compute_expires, bind, ret. rewrite Hexp.
  cbn [Z.eqb expires_truthy negb same_cookie]. unfold JsString.strict_eq.
  rewrite String.eqb_refl. cbn [andb]. rewrite <- !app_assoc. reflexivity.
Qed.



End Lifecycle.

(** ** The constructor *)

Section Constructed.
Context {P : Platform}.
Variable CookieStore : Options -> Store.
Variable app : App.

(** The name and the path of a constructed middleware are never empty. *)
Lemma string_or_truthy (x : option string) (fallback : string) :
  JsString.truthy fallback = true -> JsString.truthy (string_or x fallback) = true.
Proof.
  intros H. unfold string_or. destruct x as [s|]; [|exact H].
  now destruct (JsString.truthy s) eqn:E.
Qed.

(** X16: a string passed as [options] is the secret: a non-empty string
    builds what [{ secret: string }] builds, the empty string what no
    options build. *)
Theorem string_option_is_the_secret (s : string) :
  new_Session CookieStore app (OptionsString s) =
  if JsString.truthy s
  then new_Session CookieStore app
         (OptionsObject {| o_secret := Some s; o_name := None; o_path := None;
                           o_domain := None; o_secure := None; o_expireAfter := None;
                           o_httpOnly := None; o_store := None |})
  else new_Session CookieStore app OptionsUndefined.
Proof. unfold new_Session, normalize_options. now destruct (JsString.truthy s). Qed.

(** X17: the constructor warns, once, exactly when the cookies of the
    middleware it builds are signed by the hash of the payload alone;
    otherwise it is silent and the signature hashes the payload followed
    by a non-empty secret. *)
Theorem warns_exactly_when_unkeyed (a : options_arg) :
  let (self, warnings) := new_Session CookieStore app a in
  (warnings = [] /\
   exists k, k <> "" /\ forall data, _makeHash data (_secret self) = makeHash (data ++ k)) \/
  (warnings = [secret_warning] /\
   forall data, _makeHash data (_secret self) = makeHash data).
Proof.
  unfold new_Session. cbn zeta. cbn [_secret].
  destruct (o_secret (normalize_options a)) as [k|]; cbn [secret_missing].
  - unfold _makeHash. unfold JsString.truthy at 1.
    destruct (String.eqb_spec k "") as [->|Hk]; cbn [negb].
    + right. now split.
    + left. split; [reflexivity|]. exists k. split; [exact Hk|]. intros data.
      unfold JsString.truthy. destruct (String.eqb_spec k ""); [contradiction | reflexivity].
  - right. now split.
Qed.

(** X18: whatever the options, every cookie that a constructed
    middleware sets has a non-empty name and a non-empty path. *)
Theorem constructed_cookie_is_named (a : options_arg) (st : state) :
  exists l,
    calls (snd (apply (fst (new_Session CookieStore app a)) st)) = (calls st ++ l)%list /\
    Forall (fun c => match c with
                     | Call_setCookie name attrs => name <> "" /\ c_path attrs <> ""
                     | _ => True
                     end) l.
Proof.
  destruct (apply_log (fst (new_Session CookieStore app a)) st) as (l & Hl & Hok & _).
  exists l. split; [exact Hl|]. eapply Forall_impl; [exact Hok|].
  intros [] Hc; try exact I. destruct Hc as (-> & -> & _).
  unfold new_Session. cbn [fst _name _path].
  assert (Ht : forall x f, JsString.truthy f = true -> string_or x f <> "").
  { intros x f Hf E. pose proof (string_or_truthy x f Hf) as H. now rewrite E in H. }
  split; now apply Ht.
Qed.

(** X19: a middleware constructed without an options object (with
    nothing, or with a string) sets only cookies named [_session], on path
    [/], without domain and without expiry, [httpOnly] and not [secure]. *)
Theorem default_cookie_attributes (a : options_arg) (st : state) :
  a = OptionsUndefined \/ (exists s, a = OptionsString s) ->
  exists l,
    calls (snd (apply (fst (new_Session CookieStore app a)) st)) = (calls st ++ l)%list /\
    Forall (fun c => match c with
                     | Call_setCookie name attrs =>
                         name = "_session" /\ c_path attrs = "/" /\
                         c_domain attrs = None /\ c_expires attrs = ExpiresZero /\
                         c_httpOnly attrs = true /\ c_secure attrs = false
                     | _ => True
                     end) l.
Proof.
  intros Ha.
  destruct (apply_log (fst (new_Session CookieStore app a)) st) as (l & Hl & Hok & _).
  exists l. split; [exact Hl|]. clear Hl. eapply Forall_impl; [exact Hok|]. clear Hok.
  assert (Hn : normalize_options a = no_options \/
               exists s, normalize_options a =
                 {| o_secret := Some s; o_name := None; o_path := None;
                    o_domain := None; o_secure := None; o_expireAfter := None;
                    o_httpOnly := None; o_store := None |}).
  { destruct Ha as [->|[s ->]]; [now left|]. cbn [normalize_options].
    destruct (JsString.truthy s); [right; now exists s | now left]. }
  intros [] Hc; try exact I.
  unfold cookie_call_ok, new_Session in Hc.
  cbn [fst _name _path _domain _isHttpOnly _isSecure _expireAfter] in Hc.
  destruct Hc as (-> & -> & -> & -> & -> & Hexp & _).
  destruct Hn as [E|[s E]]; rewrite E in *;
    cbn [o_name o_path o_domain o_secure o_expireAfter o_httpOnly no_options string_or] in *;
    repeat split; now apply Hexp.
Qed.

End Constructed.

(** ** Store submodules *)

(** C9, as the code has it: the getters defined on the module are
    [CookieStore], [MemoryStore] and [RedisStore], each requiring its own
    file when read, and no other name is exposed this way. *)
Theorem exported_stores :
  Object_keys exported_getters = ["CookieStore"; "MemoryStore"; "RedisStore"] /\
  exported_store "CookieStore" = Some "./session/cookie-store" /\
  exported_store "MemoryStore" = Some "./session/memory-store" /\
  exported_store "RedisStore" = Some "./session/redis-store" /\
  forall name, exported_store name <> None ->
               name ∈ ["CookieStore"; "MemoryStore"; "RedisStore"].
Proof.
  repeat split. intros name. unfold exported_store, exported_getters.
  cbn [Object_keys submodules map fst property].
  destruct (String.eqb_spec "CookieStore" name) as [<-|_]; [intros _; set_solver|].
  destruct (String.eqb_spec "MemoryStore" name) as [<-|_]; [intros _; set_solver|].
  destruct (String.eqb_spec "RedisStore" name) as [<-|_]; [intros _; set_solver|].
  intros H. now contradiction H.
Qed.

(** No getter is defined under the name [RemoteStore]. *)
Lemma RemoteStore_not_exported :
  exported_store "RemoteStore" = None /\
  Object_keys exported_getters <> ["CookieStore"; "MemoryStore"; "RemoteStore"].
Proof. split; [reflexivity | discriminate]. Qed.

(** ** The statements on the concrete platform *)

Section Instances.
Import Toy.

Lemma toy_codec_roundtrip (x : string) : toy_decodeBase64 (toy_encodeBase64 x) = x.
Proof.
  unfold toy_decodeBase64, toy_encodeBase64.
  change 4 with (JsString.len "b64:"). apply substring_from_suffix.
Qed.

Lemma toy_digest_dash_free (x : string) : JsString.dash_free (toy_makeHash x) = true.
Proof.
  unfold toy_makeHash. rewrite append_String, append_empty.
  cbn [JsString.dash_free]. change (negb ("#" =? "-")%char) with true. cbn [andb].
  induction x as [|c x IH]; [reflexivity|].
  cbn [toy_digest JsString.dash_free]. rewrite IH, andb_true_r.
  destruct (Ascii.eqb c "-") eqn:E; [reflexivity | now rewrite E].
Qed.

Lemma mismatch_gives_empty_session_witness :
  fst (decodeCookie keyed "garbage" (mkState (Some "garbage") VUndefined 0)) = Plain VNull /\
  exists out post,
    calls (snd (apply keyed (mkState (Some "garbage") VUndefined 0))) =
      ([] ++ [Call_decodeCookie "garbage"]
          ++ [Assign_session empty_object;
              Call_app (with_session empty_object (mkRequest (Some "garbage") VUndefined)) out]
          ++ post)%list /\
    session (with_session empty_object (mkRequest (Some "garbage") VUndefined)) = VObj ∅.
Proof.
  destruct (@mismatch_gives_empty_session platform keyed
              (mkState (Some "garbage") VUndefined 0) "garbage") as [Hnull Hrun].
  - vm_compute. discriminate.
  - split; [exact Hnull|]. apply Hrun; reflexivity.
Defined.

Lemma encodeSession_signs_and_bounds_witness :
  fst (encodeSession keyed (VStr "abc") (mkState None VUndefined 0))
  = Fulfilled "b64:abc--#abck".
Proof.
  destruct (@encodeSession_signs_and_bounds platform keyed (VStr "abc")
              (mkState None VUndefined 0) "abc" 0 eq_refl) as [Hok _].
  apply Hok. vm_compute. discriminate.
Defined.

Lemma decode_failure_paths_witness :
  exists out,
    calls (snd (apply unreachable (mkState (Some "b64:x--#xk") VUndefined 0))) =
      [Call_decodeCookie "b64:x--#xk"; Call_load "x";
       Write_error "Error decoding session data: Error: store down";
       Call_app (with_error_line "Error decoding session data: Error: store down"
                   (mkRequest (Some "b64:x--#xk") VUndefined)) out] /\
    fst (apply unreachable (mkState (Some "b64:x--#xk") VUndefined 0)) = out /\
    session (with_error_line "Error decoding session data: Error: store down"
               (mkRequest (Some "b64:x--#xk") VUndefined)) = VUndefined.
Proof.
  exact (@decode_failure_paths platform unreachable
           (mkState (Some "b64:x--#xk") VUndefined 0) "b64:x--#xk"
           eq_refl eq_refl eq_refl).
Defined.

Lemma encode_failure_returns_response_witness :
  apply unreachable (mkState None VUndefined 0) =
    (Fulfilled no_cookies,
     state_of
       {| cookies := ∅; session := empty_object;
          error := ["Error encoding session data: Error: store down"] |}
       0
       [Assign_session empty_object;
        Call_app (mkRequest None empty_object) (Fulfilled no_cookies);
        Call_encodeSession empty_object; Call_save empty_object;
        Write_error "Error encoding session data: Error: store down"]).
Proof.
  destruct (@encode_failure_returns_response platform unreachable
              (mkState None VUndefined 0) _ _ _ _ _ _
              eq_refl eq_refl eq_refl eq_refl eq_refl) as [Hrun _].
  exact Hrun.
Defined.


Lemma handler_failure_propagates_witness :
  fst (apply failing (mkState None VUndefined 0)) = Rejected (new_Error "boom") /\
  Forall (fun c => persists c = false)
    [Assign_session empty_object;
     @Call_app platform (mkRequest None empty_object) (Rejected (new_Error "boom"))].
Proof.
  destruct (@handler_failure_propagates platform failing (mkState None VUndefined 0)
              [Assign_session empty_object;
               Call_app (mkRequest None empty_object) (Rejected (new_Error "boom"))]
              (mkRequest None empty_object) (new_Error "boom")
              eq_refl ltac:(repeat constructor)) as (Hres & Hall & _).
  split; [exact Hres | exact Hall].
Defined.

Lemma existing_session_passes_through_witness :
  apply keyed (mkState (Some "garbage") (VStr "kept") 0) =
    (Fulfilled no_cookies,
     state_of (mkRequest (Some "garbage") (VStr "kept")) 0
       [Call_app (mkRequest (Some "garbage") (VStr "kept")) (Fulfilled no_cookies)]).
Proof.
  exact (@existing_session_passes_through platform keyed
           (mkState (Some "garbage") (VStr "kept") 0) eq_refl).
Defined.

Lemma cookie_skipped_or_refreshed_witness :
  fst (apply keyed (mkState (Some "b64:{}--#{}k") VUndefined 5)) = Fulfilled no_cookies /\
  fst (apply expiring (mkState (Some "b64:{}--#{}k") VUndefined 5)) =
    Fulfilled (setCookie no_cookies "_session"
                 {| c_value := VStr "b64:{}--#{}k"; c_path := "/"; c_domain := None;
                    c_expires := ExpiresDate 60005; c_httpOnly := true;
                    c_secure := false |}).
Proof.
  split.
  - destruct (@cookie_skipped_or_refreshed platform keyed
                (mkState (Some "b64:{}--#{}k") VUndefined 5) _ _ _ _ _ _
                eq_refl eq_refl eq_refl eq_refl) as [Hskip _].
    rewrite Hskip; [reflexivity | reflexivity |].
    exists "b64:{}--#{}k". split; reflexivity.
  - destruct (@cookie_skipped_or_refreshed platform expiring
                (mkState (Some "b64:{}--#{}k") VUndefined 5) _ _ _ _ _ _
                eq_refl eq_refl eq_refl eq_refl) as [_ Hset].
    rewrite Hset; [reflexivity | reflexivity].
Defined.

Lemma decodeCookie_without_delimiter_witness :
  JsString.lastIndexOf "age" "--" = -1 /\
  fst (decodeCookie keyed "garbage" (mkState None VUndefined 0)) = Plain VNull.
Proof.
  destruct (@decodeCookie_without_delimiter platform keyed "garbage"
              (mkState None VUndefined 0) eq_refl) as (Hi & _ & _ & Hres).
  split; [exact Hi | exact Hres].
Defined.

(** On a cookie whose signature does not verify, nothing is written to
    [request.error] and the session [{}] is assigned. *)
Lemma mismatch_is_not_logged :
  cookies (request (mkState (Some "garbage") VUndefined 0)) !! _name keyed = Some "garbage" /\
  fst (decodeCookie keyed "garbage" (mkState (Some "garbage") VUndefined 0)) = Plain VNull /\
  ~ recovers_by_logging keyed (mkState (Some "garbage") VUndefined 0) /\
  error (request (snd (apply keyed (mkState (Some "garbage") VUndefined 0)))) = [] /\
  Assign_session empty_object
    ∈ calls (snd (apply keyed (mkState (Some "garbage") VUndefined 0))).
Proof.
  assert (Hin : @Assign_session platform empty_object
                  ∈ calls (snd (apply keyed (mkState (Some "garbage") VUndefined 0))))
    by (vm_compute; repeat constructor).
  repeat split; try reflexivity; try exact Hin.
  intros (_ & _ & Hno). exact (Hno empty_object Hin).
Qed.

Lemma encodeSession_cookie_bounded_witness :
  JsString.len "b64:abc--#abck" <= MAX_COOKIE_SIZE /\
  exists d, fst (save text_store (VStr "abc") 0) = Fulfilled d /\
            "b64:abc--#abck" = toy_encodeBase64 (d ++ "--" ++ @_makeHash platform d (Some "k")).
Proof.
  exact (@encodeSession_cookie_bounded platform keyed (VStr "abc")
           (mkState None VUndefined 0) "b64:abc--#abck" eq_refl).
Defined.

Lemma decodeCookie_accepts_signed_witness :
  fst (decodeCookie unkeyed
         (toy_encodeBase64 (long_text ++ "--" ++ toy_makeHash long_text))
         (mkState None VUndefined 0)) =
    Thenable (fst (load text_store long_text 0)).
Proof.
  exact (proj2 (@decodeCookie_accepts_signed platform unkeyed long_text
                  (mkState None VUndefined 0) toy_codec_roundtrip toy_digest_dash_free)
               eq_refl).
Defined.


Lemma persists_only_after_fulfilled_witness :
  exists pre r response post,
    [Assign_session empty_object;
     @Call_app platform (mkRequest None empty_object) (Fulfilled no_cookies);
     Call_encodeSession empty_object; Call_save empty_object;
     Call_setCookie "_session"
       {| c_value := VStr "b64:{}--#{}k"; c_path := "/"; c_domain := None;
          c_expires := ExpiresZero; c_httpOnly := true; c_secure := false |}] =
      (pre ++ Call_app r (Fulfilled response) :: post)%list /\
    Call_save empty_object ∈ post /\
    Forall (fun c' => persists c' = false) pre.
Proof.
  apply (@persists_only_after_fulfilled platform keyed (mkState None VUndefined 0)).
  - reflexivity.
  - repeat constructor.
  - reflexivity.
Defined.

Lemma diagnostic_means_no_cookie_witness :
  @count_calls platform is_Write_error
    [Assign_session empty_object;
     Call_app (mkRequest None empty_object) (Fulfilled no_cookies);
     Call_encodeSession empty_object; Call_save empty_object;
     Write_error "Error encoding session data: Error: store down"] = 1%nat /\
  forall name attrs,
    Call_setCookie name attrs ∉
      [Assign_session empty_object;
       @Call_app platform (mkRequest None empty_object) (Fulfilled no_cookies);
       Call_encodeSession empty_object; Call_save empty_object;
       Write_error "Error encoding session data: Error: store down"].
Proof.
  apply (@diagnostic_means_no_cookie platform unreachable (mkState None VUndefined 0) _
           "Error encoding session data: Error: store down").
  - reflexivity.
  - repeat constructor.
Defined.

Lemma fresh_request_gets_empty_session_witness :
  exists out post,
    calls (snd (apply keyed (mkState None VUndefined 0))) =
      ([] ++ [Assign_session empty_object;
              Call_app (with_session empty_object (mkRequest None VUndefined)) out]
          ++ post)%list.
Proof.
  apply (@fresh_request_gets_empty_session platform keyed (mkState None VUndefined 0)).
  - reflexivity.
  - left. reflexivity.
Defined.

Lemma loaded_session_is_attached_witness :
  (exists out post,
     calls (snd (apply keyed (mkState (Some "b64:hello--#hellok") VUndefined 0))) =
       ([Call_decodeCookie "b64:hello--#hellok"; Call_load "hello"]
          ++ [Assign_session (VStr "hello");
              Call_app (with_session (VStr "hello")
                          (mkRequest (Some "b64:hello--#hellok") VUndefined)) out]
          ++ post)%list) /\
  (exists out post,
     calls (snd (apply forgetful (mkState (Some "b64:hello--#hellok") VUndefined 0))) =
       ([Call_decodeCookie "b64:hello--#hellok"; Call_load "hello"]
          ++ [Assign_session empty_object;
              Call_app (with_session empty_object
                          (mkRequest (Some "b64:hello--#hellok") VUndefined)) out]
          ++ post)%list).
Proof.
  split.
  - exact (@loaded_session_is_attached platform keyed
             (mkState (Some "b64:hello--#hellok") VUndefined 0) _
             "b64:hello--#hellok" (VStr "hello") eq_refl eq_refl eq_refl eq_refl).
  - exact (@loaded_session_is_attached platform forgetful
             (mkState (Some "b64:hello--#hellok") VUndefined 0) _
             "b64:hello--#hellok" VNull eq_refl eq_refl eq_refl eq_refl).
Defined.

Lemma pending_load_stalls_witness :
  apply stalled (mkState (Some "b64:hello--#hellok") VUndefined 0) =
    (Pending,
     state_of (mkRequest (Some "b64:hello--#hellok") VUndefined) 0
       [Call_decodeCookie "b64:hello--#hellok"; Call_load "hello"]).
Proof.
  exact (proj1 (@pending_load_stalls platform stalled
                  (mkState (Some "b64:hello--#hellok") VUndefined 0) _
                  "b64:hello--#hellok" eq_refl eq_refl eq_refl eq_refl)).
Defined.

Lemma changed_cookie_is_set_witness :
  fst (apply keyed (mkState None VUndefined 0)) =
    Fulfilled (setCookie no_cookies "_session"
                 {| c_value := VStr "b64:{}--#{}k"; c_path := "/"; c_domain := None;
                    c_expires := ExpiresZero; c_httpOnly := true; c_secure := false |}).
Proof.
  rewrite (@changed_cookie_is_set platform keyed (mkState None VUndefined 0)
             _ _ _ _ _ _ eq_refl eq_refl eq_refl eq_refl (or_introl eq_refl)).
  reflexivity.
Defined.

Lemma cleared_session_skips_save_witness :
  apply clearing (mkState (Some "b64:{}--#{}k") VUndefined 0) =
    (Fulfilled (setCookie no_cookies "_session"
                  {| c_value := VUndefined; c_path := "/"; c_domain := None;
                     c_expires := ExpiresZero; c_httpOnly := true; c_secure := false |}),
     state_of (mkRequest (Some "b64:{}--#{}k") VUndefined) 0
       [Call_decodeCookie "b64:{}--#{}k"; Call_load "{}"; Assign_session empty_object;
        Call_app (mkRequest (Some "b64:{}--#{}k") empty_object) (Fulfilled no_cookies);
        Call_setCookie "_session"
          {| c_value := VUndefined; c_path := "/"; c_domain := None;
             c_expires := ExpiresZero; c_httpOnly := true; c_secure := false |}]).
Proof.
  rewrite (@cleared_session_skips_save platform clearing
             (mkState (Some "b64:{}--#{}k") VUndefined 0)
             _ _ _ _ eq_refl eq_refl eq_refl eq_refl).
  reflexivity.
Defined.

Lemma unchanged_session_sets_no_cookie_witness :
  apply keyed (mkState (Some "b64:{}--#{}k") VUndefined 0) =
    (Fulfilled no_cookies,
     state_of (mkRequest (Some "b64:{}--#{}k") empty_object) 0
       [Call_decodeCookie "b64:{}--#{}k"; Call_load "{}"; Assign_session empty_object;
        Call_app (mkRequest (Some "b64:{}--#{}k") empty_object) (Fulfilled no_cookies);
        Call_encodeSession empty_object; Call_save empty_object]).
Proof.
  refine (@unchanged_session_sets_no_cookie platform keyed
            (mkState (Some "b64:{}--#{}k") VUndefined 0) "{}" empty_object
            no_cookies (mkRequest (Some "b64:{}--#{}k") empty_object) 0 0 0
            toy_codec_roundtrip toy_digest_dash_free
            eq_refl eq_refl eq_refl eq_refl _ eq_refl eq_refl eq_refl eq_refl eq_refl).
  vm_compute. discriminate.
Defined.



Lemma default_cookie_attributes_witness :
  exists l,
    calls (snd (apply (fst (new_Session toy_CookieStore ok_app (OptionsString "k")))
                  (mkState None VUndefined 0))) = ([] ++ l)%list /\
    Forall (fun c => match c with
                     | Call_setCookie name attrs =>
                         name = "_session" /\ c_path attrs = "/" /\
                         c_domain attrs = None /\ c_expires attrs = ExpiresZero /\
                         c_httpOnly attrs = true /\ c_secure attrs = false
                     | _ => True
                     end) l.
Proof.
  apply (@default_cookie_attributes platform toy_CookieStore ok_app (OptionsString "k")
           (mkState None VUndefined 0)).
  right. exists "k". reflexivity.
Defined.

(** The constructor on this platform: silent with a secret, one warning
    without, and an empty name falls back to [_session]. *)
Example constructor_on_the_platform :
  snd (new_Session toy_CookieStore ok_app (OptionsString "k")) = [] /\
  snd (new_Session toy_CookieStore ok_app OptionsUndefined) = [secret_warning] /\
  snd (new_Session toy_CookieStore ok_app (OptionsString "")) = [secret_warning] /\
  fst (new_Session toy_CookieStore ok_app (OptionsString "k")) = keyed /\
  _name (fst (new_Session toy_CookieStore ok_app
                (OptionsObject {| o_secret := Some "k"; o_name := Some ""; o_path := None;
                                  o_domain := None; o_secure := None;
                                  o_expireAfter := None; o_httpOnly := Some false;
                                  o_store := None |}))) = "_session".
Proof. repeat split. Qed.

(** A first request without a cookie gets the cookie of the empty
    session; presenting that cookie again sets nothing. *)
Example fresh_session_then_unchanged :
  fst (apply keyed (mkState None VUndefined 0)) =
    Fulfilled (setCookie no_cookies "_session"
                 {| c_value := VStr "b64:{}--#{}k"; c_path := "/"; c_domain := None;
                    c_expires := ExpiresZero; c_httpOnly := true; c_secure := false |}) /\
  fst (apply keyed (mkState (Some "b64:{}--#{}k") VUndefined 0)) = Fulfilled no_cookies.
Proof. split; reflexivity. Qed.

(** A session too large for a cookie is dropped: one line is logged and
    the response carries no cookie. *)
Example oversized_session_is_dropped :
  fst (apply bloating (mkState None VUndefined 0)) = Fulfilled no_cookies /\
  error (request (snd (apply bloating (mkState None VUndefined 0)))) =
    ["Error encoding session data: Error: Cookie data size exceeds 4kb; content dropped"].
Proof. split; vm_compute; reflexivity. Qed.

(** A tampered payload under a kept signature decodes to [null]. *)
Example tampered_cookie_is_null :
  fst (decodeCookie keyed "b64:{x}--#{}k" (mkState None VUndefined 0)) = Plain VNull.
Proof. reflexivity. Qed.

End Instances.
